(** * DIVE annotation client: track store and editing-mode manager

    A shallow embedding of [client/dive-common/use/useModeManager.ts]
    together with the parts of the track store it consumes
    ([client/src/use/useTrackStore.ts], exercised by
    [useTrackStore.spec.ts]).

    JavaScript values are embedded as follows:
    - [number] used as a track id or frame number: [Z];
    - [T | null] and optional fields: [option T];
    - [Map<K, V>]: stdpp's [gmap K V];
    - a plain object used as a string-keyed record: an association list in
      insertion order (see [JsRecord]);
    - [throw]: the [Throw] outcome of the state-and-exception monad [M];
      assignments made before a [throw] remain visible in the state carried
      by [Throw];
    - calls into collaborators that only produce an effect outside the
      manager (the prompt service, the caller's [preventInterrupt]
      callback): entries appended to the [events] trace. *)

From Stdlib Require Import ZArith List Bool Lia.
From stdpp Require Import base option list strings gmap fin_maps pretty.

Local Open Scope string_scope.
Local Open Scope list_scope.
Local Open Scope Z_scope.

(** ** Identifiers and small enumerations *)

Definition TrackId := Z.

(** [eventType: 'in-progress' | 'editing'] of [handleUpdateGeoJSON]. *)
Inductive EventType := InProgress | Editing.

(** [EditAnnotationTypes], a union of string literals.  Every member is a
    non-empty string, so an optional value of this type is truthy exactly
    when it is present. *)
Inductive EditAnnotationTypes := EditRectangle | EditPolygon | EditLineString | EditPoint.

(** [VisibleAnnotationTypes]: the editing types plus ['text']. *)
Inductive VisibleAnnotationTypes := VisEdit (t : EditAnnotationTypes) | VisText.

(** The error kinds of the specification; the source throws plain [Error]
    objects, told apart here by the place that throws them. *)
Inductive ErrorKind := NotFound | Conflict | InvalidState | DuplicateId | JsTypeError.

Record Error := mkError { kind : ErrorKind; message : string }.

Global Instance ErrorKind_eq_dec : EqDecision ErrorKind.
Proof. solve_decision. Defined.
Global Instance EventType_eq_dec : EqDecision EventType.
Proof. solve_decision. Defined.
Global Instance EditAnnotationTypes_eq_dec : EqDecision EditAnnotationTypes.
Proof. solve_decision. Defined.

(** ** JavaScript helpers *)

Module Js.

(** Truthiness of a [string | undefined]: [undefined] and [''] are falsy. *)
Definition truthy_string (o : option string) : bool :=
  match o with
  | Some s => negb (String.eqb s "")
  | None => false
  end.

(** Truthiness of an optional value whose members are all truthy. *)
Definition truthy {A} (o : option A) : bool :=
  match o with Some _ => true | None => false end.

(** [o !== null] *)
Definition not_null {A} (o : option A) : bool :=
  match o with Some _ => true | None => false end.

(** [Array.from(new Set(l))]: first occurrences, in order. *)
Fixpoint set_of_list (seen l : list Z) : list Z :=
  match l with
  | [] => []
  | x :: l' =>
      if bool_decide (x ∈ seen) then set_of_list seen l'
      else x :: set_of_list (x :: seen) l'
  end.

(** [Array.from(new Set(l).add(x))]. *)
Definition set_add (l : list Z) (x : Z) : list Z := set_of_list [] (l ++ [x]).

(** Template-literal rendering of an integral [number]. *)
Definition show (n : Z) : string := pretty n.

End Js.

(** A plain object used as a record with string keys.  Keys are kept in
    insertion order; the reordering JavaScript applies to integer-like keys
    is not modelled (it only affects enumeration order). *)
Module JsRecord.
Section Rec.
Context {V : Type}.

Definition t := list (string * V).

(** [Object.keys(o)] *)
Definition keys (o : list (string * V)) : list string := map fst o.

Definition has_own (k : string) (o : list (string * V)) : bool :=
  existsb (String.eqb k) (keys o).

(** Properties every object literal inherits from [Object.prototype];
    the [in] operator sees them. *)
Definition prototype_keys : list string :=
  [ "constructor"; "__defineGetter__"; "__defineSetter__"; "hasOwnProperty";
    "__lookupGetter__"; "__lookupSetter__"; "isPrototypeOf";
    "propertyIsEnumerable"; "toString"; "valueOf"; "__proto__";
    "toLocaleString" ].

(** [k in o] for an object created by an object literal. *)
Definition has (k : string) (o : list (string * V)) : bool :=
  has_own k o || existsb (String.eqb k) prototype_keys.

(** [o[k] = v] *)
Fixpoint set (k : string) (v : V) (o : list (string * V)) : list (string * V) :=
  match o with
  | [] => [(k, v)]
  | (k', v') :: o' =>
      if String.eqb k k' then (k', v) :: o' else (k', v') :: set k v o'
  end.

(** [Object.assign(target, source)] *)
Definition assign (target source : list (string * V)) : list (string * V) :=
  fold_left (fun acc kv => set (fst kv) (snd kv) acc) source target.
End Rec.
End JsRecord.

(** ** External collaborators

    Geometry values, the bounds arithmetic of [vue-media-annotator/utils]
    and the media controller are outside the modelled code; they are taken
    as parameters. *)
Class Externals := {
  RectBounds : Type;
  (** [GeoJSON.Polygon] *)
  GeoPolygon : Type;
  (** [SupportedFeature]: a GeoJSON feature holding a point, polygon or line *)
  SupportedFeature : Type;
  (** the [{ type, geometry, properties: { key } }] objects handed to
      [Track.setFeature] *)
  KeyedGeometry : Type;
  with_key : string -> SupportedFeature -> KeyedGeometry;
  (** [updateBounds(oldBounds, union, unionNoBounds)] *)
  updateBounds : option RectBounds -> list GeoPolygon -> list GeoPolygon -> option RectBounds;
  (** [AggregateMediaController] *)
  Controller : Type;
  ctl_frame : Controller -> Z;
  ctl_nextFrame : Controller -> Controller;
  ctl_seek : Z -> Controller -> Controller;
  (** confidence scores and attribute values *)
  Score : Type;
  score_new : Score;
  AttributeValue : Type;
}.

(** ** Data model of the track store *)

Section DataModel.
Context `{Externals}.

(** The state recorded for a track at one frame. *)
Record Feature := mkFeature {
  f_frame : Z;
  f_bounds : option RectBounds;
  f_geometry : list KeyedGeometry;
  f_keyframe : bool;
  f_interpolate : bool;
}.

Record Track := mkTrack {
  trackId : TrackId;
  begin : Z;
  end_ : Z;
  features : gmap Z Feature;
  confidencePairs : list (string * Score);
  attributes : gmap string AttributeValue;
}.

(** The partial feature passed to [Track.setFeature]. *)
Record FeatureInput := mkFeatureInput {
  fi_frame : Z;
  fi_flick : Z;
  fi_keyframe : bool;
  fi_bounds : option RectBounds;
  fi_interpolate : bool;
}.

End DataModel.

(** The methods of the [Track] class used by the mode manager.  The class is
    not part of the modelled sources; its methods are parameters, and a
    method that mutates the track in JavaScript returns the new track. *)
Class TrackMethods `{Externals} := {
  (** [track.getFeature(frame)] *)
  getFeature : Track -> Z -> list (option Feature);
  (** [track.canInterpolate(frame)], as [(features, interpolate)] *)
  canInterpolate : Track -> Z -> list (option Feature) * bool;
  (** [track.setFeature(feature, geometry)] *)
  setFeature : FeatureInput -> list KeyedGeometry -> Track -> Track;
  (** [track.merge(others)] *)
  merge : list Track -> Track -> Track;
  (** [trackId] is a read-only property of a track *)
  setFeature_trackId : forall fi g t, trackId (setFeature fi g t) = trackId t;
  merge_trackId : forall others t, trackId (merge others t) = trackId t;
}.

(** ** The track store *)

Module TrackStore.
Section Store.
Context `{Externals}.

(** [camMap: Map<string, Map<TrackId, Track>>] together with the
    interval index. *)
Record Store := mkStore {
  camMap : gmap string (gmap Z Track);
  intervalIndex : gmap (string * Z) (Z * Z);
  nextId : Z;
}.

Definition lookup_track (cm : gmap string (gmap Z Track)) (id : TrackId) (cameraName : string)
  : option Track :=
  cm !! cameraName ≫= fun m => m !! id.

(** Modelled from the spec: [getPossibleTrack(id, camera) -> Track?], the
    non-throwing lookup of [useTrackStore.ts] (not under src/). *)
Definition getPossibleTrack (cm : gmap string (gmap Z Track)) (id : TrackId) (cameraName : string)
  : option Track :=
  lookup_track cm id cameraName.

Definition not_found_message (id : TrackId) (cameraName : string) : string :=
  "TrackId " +:+ Js.show id +:+ " not found in trackMap with cameraName " +:+ cameraName.

(** Modelled from the spec: [getTrack(id, camera) -> Track] of
    [useTrackStore.ts] (not under src/), which fails with [NotFound],
    naming the id and the camera, when the track is absent.  The message
    is the one [useTrackStore.spec.ts] expects. *)
Definition getTrack (cm : gmap string (gmap Z Track)) (id : TrackId) (cameraName : string)
  : Error + Track :=
  match lookup_track cm id cameraName with
  | Some t => inr t
  | None => inl (mkError NotFound (not_found_message id cameraName))
  end.

(** Modelled from the spec: [getAllTracksForId(id) -> list of Track]
    ([getTrackAll] in [useTrackStore.ts], not under src/): one track per
    camera holding that id. *)
Definition getTrackAll (cm : gmap string (gmap Z Track)) (id : TrackId) : list Track :=
  omap (fun cam_m : string * gmap Z Track => snd cam_m !! id) (map_to_list cm).

(** Modelled from the spec: [getAnyTrack(id) -> Track] of
    [useTrackStore.ts] (not under src/): the track for [id] from any
    camera that has it, [NotFound] if there is none. *)
Definition getAnyTrack (cm : gmap string (gmap Z Track)) (id : TrackId) : Error + Track :=
  match getTrackAll cm id with
  | t :: _ => inr t
  | [] => inl (mkError NotFound ("TrackId " +:+ Js.show id +:+ " not found in any camera"))
  end.

(** A track as [addTrack] creates it: a single-frame range and the
    initial type as its only confidence pair. *)
Definition newTrack (id : TrackId) (frame : Z) (defaultType : string) : Track :=
  mkTrack id frame frame ∅ [(defaultType, score_new)] ∅.

(** Modelled from the spec: [addTrack(frame, initialType, camera, afterId?,
    overrideId?) -> Track] of [useTrackStore.ts] (not under src/), with
    the argument order of the source.  The track is registered in the
    camera's map and in the interval index; a supplied [overrideTrackId]
    is reused and fails with [DuplicateId] if that camera already has
    it.  Fresh ids are assigned increasingly.  [afterId] only positions
    the track in the ordered view, which is not modelled. *)
Definition addTrack (frame : Z) (defaultType : string) (afterId : option TrackId)
    (cameraName : string) (overrideTrackId : option TrackId) (st : Store)
  : Error + (Track * Store) :=
  match camMap st !! cameraName with
  | None => inl (mkError NotFound ("Camera " +:+ cameraName +:+ " does not exist"))
  | Some m =>
      let id := default (nextId st) overrideTrackId in
      match m !! id with
      | Some _ =>
          inl (mkError DuplicateId
                 ("TrackId " +:+ Js.show id +:+ " already exists in camera " +:+ cameraName))
      | None =>
          let t := newTrack id frame defaultType in
          inr (t, {| camMap := <[cameraName := <[id := t]> m]> (camMap st);
                     intervalIndex := <[(cameraName, id) := (frame, frame)]> (intervalIndex st);
                     nextId := Z.max (nextId st) (id + 1) |})
      end
  end.

(** Modelled from the spec: [removeTrack(id, camera)] of
    [useTrackStore.ts] (not under src/): deletes the track from the
    camera's map and from the interval index, and signals [NotFound]
    when it is absent.  The mode manager passes the empty camera name
    when the removal is not restricted to one camera; the id is then
    deleted from every camera. *)
Definition removeTrack (id : TrackId) (disableNotifications : bool) (cameraName : string)
    (st : Store) : Error + Store :=
  if String.eqb cameraName "" then
    match getTrackAll (camMap st) id with
    | [] => inl (mkError NotFound ("TrackId " +:+ Js.show id +:+ " not found in any camera"))
    | _ :: _ =>
        inr {| camMap := delete id <$> camMap st;
               intervalIndex :=
                 filter (fun e : (string * Z) * (Z * Z) => snd (fst e) ≠ id) (intervalIndex st);
               nextId := nextId st |}
    end
  else
    match lookup_track (camMap st) id cameraName with
    | None => inl (mkError NotFound (not_found_message id cameraName))
    | Some _ =>
        inr {| camMap := alter (delete id) cameraName (camMap st);
               intervalIndex := delete (cameraName, id) (intervalIndex st);
               nextId := nextId st |}
    end.

(** Modelled from the spec: every mutation of a track notifies the owning
    store for index maintenance.  [replaceTrack] stores the mutated track
    in place of the old one and refreshes its index entry; it does
    nothing for a track the camera does not hold. *)
Definition replaceTrack (cameraName : string) (id : TrackId) (t : Track) (st : Store) : Store :=
  match lookup_track (camMap st) id cameraName with
  | None => st
  | Some _ =>
      {| camMap := alter (insert id t) cameraName (camMap st);
         intervalIndex := <[(cameraName, id) := (begin t, end_ t)]> (intervalIndex st);
         nextId := nextId st |}
  end.

(** Overlap test of the interval index on inclusive ranges. *)
Definition overlaps (entry query : Z * Z) : bool :=
  Z.leb (fst entry) (snd query) && Z.leb (fst query) (snd entry).

(** Modelled from the spec: [queryInterval(frameRange)], the
    [intervalTree.search] of [useTrackStore.ts] (not under src/): the
    ids of all index entries whose range overlaps the query. *)
Definition queryInterval (query : Z * Z) (st : Store) : list TrackId :=
  (fun e : (string * Z) * (Z * Z) => snd (fst e))
    <$> filter (fun e : (string * Z) * (Z * Z) => overlaps (snd e) query = true)
          (map_to_list (intervalIndex st)).

(** A store as [useTrackStore] creates it: the single default camera and
    no tracks. *)
Definition emptyStore : Store :=
  {| camMap := {[ "singleCam" := ∅ ]}; intervalIndex := ∅; nextId := 0 |}.

(** Stores obtained from one without tracks by adding and removing
    tracks and by in-place mutations that keep a track's id and a
    well-formed frame range. *)
Inductive reachable : Store -> Prop :=
| reach_init st :
    intervalIndex st = ∅ ->
    (forall c m, camMap st !! c = Some m -> m = ∅) ->
    reachable st
| reach_add st frame ty after cam override t st' :
    reachable st ->
    addTrack frame ty after cam override st = inr (t, st') ->
    reachable st'
| reach_remove st id quiet cam st' :
    reachable st ->
    removeTrack id quiet cam st = inr st' ->
    reachable st'
| reach_replace st cam id t :
    reachable st ->
    trackId t = id ->
    begin t <= end_ t ->
    reachable (replaceTrack cam id t st).

(** The index holds exactly one entry per stored track, carrying the
    track's frame range. *)
Definition index_consistent (st : Store) : Prop :=
  forall c id r,
    intervalIndex st !! (c, id) = Some r <->
    exists t, lookup_track (camMap st) id c = Some t /\ r = (begin t, end_ t).

Definition ranges_ordered (st : Store) : Prop :=
  forall c id t, lookup_track (camMap st) id c = Some t -> begin t <= end_ t.

(** The frame ranges [[lo, hi]] and [[a, b]] share a frame. *)
Definition intersects (lo hi a b : Z) : Prop :=
  exists f, lo <= f <= hi /\ a <= f <= b.

End Store.
End TrackStore.


(** ** Recipes *)

Section RecipeResults.
Context `{Externals}.

(** What [recipe.update] returns. *)
Record RecipeResult := mkRecipeResult {
  data : list (string * list SupportedFeature);
  union : list GeoPolygon;
  unionWithoutBounds : list GeoPolygon;
  newType : option EditAnnotationTypes;
  newSelectedKey : option string;
  done : option bool;
}.
End RecipeResults.

(** The [Recipe] interface, as far as the mode manager calls it. *)
Class RecipeOps `{Externals} := {
  Recipe : Type;
  recipe_name : Recipe -> string;
  (** [recipe.update(eventType, frame, track, data, key)] *)
  recipe_update :
    Recipe -> EventType -> Z -> Track -> list SupportedFeature -> option string -> RecipeResult;
  (** [recipe.deactivate()] *)
  recipe_deactivate : Recipe -> Recipe;
}.

(** ** Session state of the mode manager *)

Inductive NewTrackMode := ModeTrack | ModeDetection.

(** [clientSettings.trackSettings], flattened. *)
Record TrackSettings := mkTrackSettings {
  (** [newTrackSettings.mode] and [newTrackSettings.type] *)
  nts_mode : NewTrackMode;
  nts_type : string;
  (** [newTrackSettings.modeSettings.Track] *)
  nts_autoAdvanceFrame : bool;
  nts_interpolate : bool;
  (** [newTrackSettings.modeSettings.Detection.continuous] *)
  nts_continuous : bool;
  (** [deletionSettings.promptUser] *)
  del_promptUser : bool;
}.

(** Calls whose effect lies outside the manager. *)
Inductive Event :=
| EvPrompt (title : string) (text : list string) (confirm : bool)
| EvPreventInterrupt
| EvUnhandledRejection (e : Error).

Section ModeManager.
Context `{Ext : Externals} `{!TrackMethods} `{!RecipeOps}.

Record State := mkState {
  (** the track store behind [camMap] and the injected [addTrack] and
      [removeTrack] *)
  store : TrackStore.Store;
  (** the refs handed in by the caller *)
  selectedTrackId : option TrackId;
  selectedCamera : string;
  editingTrack : bool;
  aggregateController : Controller;
  recipes : list Recipe;
  trackSettings : TrackSettings;
  (** [let creating] *)
  creating : bool;
  (** [annotationModes.visible] and [annotationModes.editing] *)
  visible : list VisibleAnnotationTypes;
  editing : EditAnnotationTypes;
  (** [-1] when no handle is selected *)
  selectedFeatureHandle : Z;
  selectedKey : string;
  editingCanary : bool;
  (** merge and linking state *)
  mergeList : list TrackId;
  linkingState : bool;
  linkingTrack : option TrackId;
  linkingCamera : string;
  (** effects on collaborators, oldest first *)
  events : list Event;
}.

Definition set_store (v : TrackStore.Store) (s : State) : State :=
  {| store := v; selectedTrackId := selectedTrackId s; selectedCamera := selectedCamera s;
     editingTrack := editingTrack s; aggregateController := aggregateController s;
     recipes := recipes s; trackSettings := trackSettings s; creating := creating s;
     visible := visible s; editing := editing s;
     selectedFeatureHandle := selectedFeatureHandle s; selectedKey := selectedKey s;
     editingCanary := editingCanary s; mergeList := mergeList s;
     linkingState := linkingState s; linkingTrack := linkingTrack s;
     linkingCamera := linkingCamera s; events := events s |}.

Definition set_selectedTrackId (v : option TrackId) (s : State) : State :=
  {| store := store s; selectedTrackId := v; selectedCamera := selectedCamera s;
     editingTrack := editingTrack s; aggregateController := aggregateController s;
     recipes := recipes s; trackSettings := trackSettings s; creating := creating s;
     visible := visible s; editing := editing s;
     selectedFeatureHandle := selectedFeatureHandle s; selectedKey := selectedKey s;
     editingCanary := editingCanary s; mergeList := mergeList s;
     linkingState := linkingState s; linkingTrack := linkingTrack s;
     linkingCamera := linkingCamera s; events := events s |}.

Definition set_selectedCamera (v : string) (s : State) : State :=
  {| store := store s; selectedTrackId := selectedTrackId s; selectedCamera := v;
     editingTrack := editingTrack s; aggregateController := aggregateController s;
     recipes := recipes s; trackSettings := trackSettings s; creating := creating s;
     visible := visible s; editing := editing s;
     selectedFeatureHandle := selectedFeatureHandle s; selectedKey := selectedKey s;
     editingCanary := editingCanary s; mergeList := mergeList s;
     linkingState := linkingState s; linkingTrack := linkingTrack s;
     linkingCamera := linkingCamera s; events := events s |}.

Definition set_editingTrack (v : bool) (s : State) : State :=
  {| store := store s; selectedTrackId := selectedTrackId s;
     selectedCamera := selectedCamera s; editingTrack := v;
     aggregateController := aggregateController s; recipes := recipes s;
     trackSettings := trackSettings s; creating := creating s; visible := visible s;
     editing := editing s; selectedFeatureHandle := selectedFeatureHandle s;
     selectedKey := selectedKey s; editingCanary := editingCanary s;
     mergeList := mergeList s; linkingState := linkingState s;
     linkingTrack := linkingTrack s; linkingCamera := linkingCamera s; events := events s |}.

Definition set_aggregateController (v : Controller) (s : State) : State :=
  {| store := store s; selectedTrackId := selectedTrackId s;
     selectedCamera := selectedCamera s; editingTrack := editingTrack s;
     aggregateController := v; recipes := recipes s; trackSettings := trackSettings s;
     creating := creating s; visible := visible s; editing := editing s;
     selectedFeatureHandle := selectedFeatureHandle s; selectedKey := selectedKey s;
     editingCanary := editingCanary s; mergeList := mergeList s;
     linkingState := linkingState s; linkingTrack := linkingTrack s;
     linkingCamera := linkingCamera s; events := events s |}.

Definition set_recipes (v : list Recipe) (s : State) : State :=
  {| store := store s; selectedTrackId := selectedTrackId s;
     selectedCamera := selectedCamera s; editingTrack := editingTrack s;
     aggregateController := aggregateController s; recipes := v;
     trackSettings := trackSettings s; creating := creating s; visible := visible s;
     editing := editing s; selectedFeatureHandle := selectedFeatureHandle s;
     selectedKey := selectedKey s; editingCanary := editingCanary s;
     mergeList := mergeList s; linkingState := linkingState s;
     linkingTrack := linkingTrack s; linkingCamera := linkingCamera s; events := events s |}.

Definition set_trackSettings (v : TrackSettings) (s : State) : State :=
  {| store := store s; selectedTrackId := selectedTrackId s;
     selectedCamera := selectedCamera s; editingTrack := editingTrack s;
     aggregateController := aggregateController s; recipes := recipes s; trackSettings := v;
     creating := creating s; visible := visible s; editing := editing s;
     selectedFeatureHandle := selectedFeatureHandle s; selectedKey := selectedKey s;
     editingCanary := editingCanary s; mergeList := mergeList s;
     linkingState := linkingState s; linkingTrack := linkingTrack s;
     linkingCamera := linkingCamera s; events := events s |}.

Definition set_creating (v : bool) (s : State) : State :=
  {| store := store s; selectedTrackId := selectedTrackId s;
     selectedCamera := selectedCamera s; editingTrack := editingTrack s;
     aggregateController := aggregateController s; recipes := recipes s;
     trackSettings := trackSettings s; creating := v; visible := visible s;
     editing := editing s; selectedFeatureHandle := selectedFeatureHandle s;
     selectedKey := selectedKey s; editingCanary := editingCanary s;
     mergeList := mergeList s; linkingState := linkingState s;
     linkingTrack := linkingTrack s; linkingCamera := linkingCamera s; events := events s |}.

Definition set_visible (v : list VisibleAnnotationTypes) (s : State) : State :=
  {| store := store s; selectedTrackId := selectedTrackId s;
     selectedCamera := selectedCamera s; editingTrack := editingTrack s;
     aggregateController := aggregateController s; recipes := recipes s;
     trackSettings := trackSettings s; creating := creating s; visible := v;
     editing := editing s; selectedFeatureHandle := selectedFeatureHandle s;
     selectedKey := selectedKey s; editingCanary := editingCanary s;
     mergeList := mergeList s; linkingState := linkingState s;
     linkingTrack := linkingTrack s; linkingCamera := linkingCamera s; events := events s |}.

Definition set_editing (v : EditAnnotationTypes) (s : State) : State :=
  {| store := store s; selectedTrackId := selectedTrackId s;
     selectedCamera := selectedCamera s; editingTrack := editingTrack s;
     aggregateController := aggregateController s; recipes := recipes s;
     trackSettings := trackSettings s; creating := creating s; visible := visible s;
     editing := v; selectedFeatureHandle := selectedFeatureHandle s;
     selectedKey := selectedKey s; editingCanary := editingCanary s;
     mergeList := mergeList s; linkingState := linkingState s;
     linkingTrack := linkingTrack s; linkingCamera := linkingCamera s; events := events s |}.

Definition set_selectedFeatureHandle (v : Z) (s : State) : State :=
  {| store := store s; selectedTrackId := selectedTrackId s;
     selectedCamera := selectedCamera s; editingTrack := editingTrack s;
     aggregateController := aggregateController s; recipes := recipes s;
     trackSettings := trackSettings s; creating := creating s; visible := visible s;
     editing := editing s; selectedFeatureHandle := v; selectedKey := selectedKey s;
     editingCanary := editingCanary s; mergeList := mergeList s;
     linkingState := linkingState s; linkingTrack := linkingTrack s;
     linkingCamera := linkingCamera s; events := events s |}.

Definition set_selectedKey (v : string) (s : State) : State :=
  {| store := store s; selectedTrackId := selectedTrackId s;
     selectedCamera := selectedCamera s; editingTrack := editingTrack s;
     aggregateController := aggregateController s; recipes := recipes s;
     trackSettings := trackSettings s; creating := creating s; visible := visible s;
     editing := editing s; selectedFeatureHandle := selectedFeatureHandle s;
     selectedKey := v; editingCanary := editingCanary s; mergeList := mergeList s;
     linkingState := linkingState s; linkingTrack := linkingTrack s;
     linkingCamera := linkingCamera s; events := events s |}.

Definition set_editingCanary (v : bool) (s : State) : State :=
  {| store := store s; selectedTrackId := selectedTrackId s;
     selectedCamera := selectedCamera s; editingTrack := editingTrack s;
     aggregateController := aggregateController s; recipes := recipes s;
     trackSettings := trackSettings s; creating := creating s; visible := visible s;
     editing := editing s; selectedFeatureHandle := selectedFeatureHandle s;
     selectedKey := selectedKey s; editingCanary := v; mergeList := mergeList s;
     linkingState := linkingState s; linkingTrack := linkingTrack s;
     linkingCamera := linkingCamera s; events := events s |}.

Definition set_mergeList (v : list TrackId) (s : State) : State :=
  {| store := store s; selectedTrackId := selectedTrackId s;
     selectedCamera := selectedCamera s; editingTrack := editingTrack s;
     aggregateController := aggregateController s; recipes := recipes s;
     trackSettings := trackSettings s; creating := creating s; visible := visible s;
     editing := editing s; selectedFeatureHandle := selectedFeatureHandle s;
     selectedKey := selectedKey s; editingCanary := editingCanary s; mergeList := v;
     linkingState := linkingState s; linkingTrack := linkingTrack s;
     linkingCamera := linkingCamera s; events := events s |}.

Definition set_linkingState (v : bool) (s : State) : State :=
  {| store := store s; selectedTrackId := selectedTrackId s;
     selectedCamera := selectedCamera s; editingTrack := editingTrack s;
     aggregateController := aggregateController s; recipes := recipes s;
     trackSettings := trackSettings s; creating := creating s; visible := visible s;
     editing := editing s; selectedFeatureHandle := selectedFeatureHandle s;
     selectedKey := selectedKey s; editingCanary := editingCanary s;
     mergeList := mergeList s; linkingState := v; linkingTrack := linkingTrack s;
     linkingCamera := linkingCamera s; events := events s |}.

Definition set_linkingTrack (v : option TrackId) (s : State) : State :=
  {| store := store s; selectedTrackId := selectedTrackId s;
     selectedCamera := selectedCamera s; editingTrack := editingTrack s;
     aggregateController := aggregateController s; recipes := recipes s;
     trackSettings := trackSettings s; creating := creating s; visible := visible s;
     editing := editing s; selectedFeatureHandle := selectedFeatureHandle s;
     selectedKey := selectedKey s; editingCanary := editingCanary s;
     mergeList := mergeList s; linkingState := linkingState s; linkingTrack := v;
     linkingCamera := linkingCamera s; events := events s |}.

Definition set_linkingCamera (v : string) (s : State) : State :=
  {| store := store s; selectedTrackId := selectedTrackId s;
     selectedCamera := selectedCamera s; editingTrack := editingTrack s;
     aggregateController := aggregateController s; recipes := recipes s;
     trackSettings := trackSettings s; creating := creating s; visible := visible s;
     editing := editing s; selectedFeatureHandle := selectedFeatureHandle s;
     selectedKey := selectedKey s; editingCanary := editingCanary s;
     mergeList := mergeList s; linkingState := linkingState s;
     linkingTrack := linkingTrack s; linkingCamera := v; events := events s |}.

Definition set_events (v : list Event) (s : State) : State :=
  {| store := store s; selectedTrackId := selectedTrackId s;
     selectedCamera := selectedCamera s; editingTrack := editingTrack s;
     aggregateController := aggregateController s; recipes := recipes s;
     trackSettings := trackSettings s; creating := creating s; visible := visible s;
     editing := editing s; selectedFeatureHandle := selectedFeatureHandle s;
     selectedKey := selectedKey s; editingCanary := editingCanary s;
     mergeList := mergeList s; linkingState := linkingState s;
     linkingTrack := linkingTrack s; linkingCamera := linkingCamera s; events := v |}.


Definition camMap (s : State) : gmap string (gmap Z Track) := TrackStore.camMap (store s).

(** [mergeInProgress = computed(() => mergeList.value.length > 0)] *)
Definition mergeInProgress (s : State) : bool :=
  match mergeList s with [] => false | _ :: _ => true end.

(** *** Statements: state passing with exceptions *)

Inductive Outcome (A : Type) :=
| Ok (a : A) (s : State)
| Throw (e : Error) (s : State).
Global Arguments Ok {A} a s.
Global Arguments Throw {A} e s.

Definition M (A : Type) : Type := State -> Outcome A.

Definition ret {A} (a : A) : M A := fun s => Ok a s.

Definition bind {A B} (m : M A) (k : A -> M B) : M B :=
  fun s => match m s with
           | Ok a s' => k a s'
           | Throw e s' => Throw e s'
           end.

Definition throw {A} (e : Error) : M A := fun s => Throw e s.
Definition get : M State := fun s => Ok s s.
Definition modify (f : State -> State) : M unit := fun s => Ok tt (f s).
Definition emit (ev : Event) : M unit := modify (fun s => set_events (events s ++ [ev]) s).

(** A value or a thrown error computed without touching the state. *)
Definition lift {A} (r : Error + A) : M A :=
  match r with inl e => throw e | inr a => ret a end.

(** [list.forEach(f)] *)
Fixpoint forEach {A} (f : A -> M unit) (l : list A) : M unit :=
  match l with
  | [] => ret tt
  | x :: l' => bind (f x) (fun _ => forEach f l')
  end.

(** Calling an [async] function whose body reaches no [await], without
    awaiting the promise: the body runs to its end or to its first
    [throw], which rejects the promise instead of reaching the caller. *)
Definition async_call (m : M unit) : M unit :=
  fun s => match m s with
           | Ok _ s' => Ok tt s'
           | Throw e s' => Ok tt (set_events (events s' ++ [EvUnhandledRejection e]) s')
           end.

(** The state an outcome leaves behind. *)
Definition final {A} (o : Outcome A) : State :=
  match o with Ok _ s => s | Throw _ s => s end.

Definition threw {A} (o : Outcome A) : option Error :=
  match o with Ok _ _ => None | Throw e _ => Some e end.

Local Notation "x <- m ;; k" := (bind m (fun x => k))
  (at level 100, m at next level, right associativity).
Local Notation "m ;; k" := (bind m (fun _ => k))
  (at level 100, right associativity).

(** *** Injected operations *)

(** [selectNextTrack(delta)], injected by the caller; a query on the
    session. *)
Variable selectNextTrack : Z -> State -> option TrackId.

(** Modelled from the spec: the injected [selectTrack(id, edit)] of the
    selection controls (not under src/) sets the selection and the
    editing flag. *)
Definition selectTrack (trackId : option TrackId) (edit : bool) : M unit :=
  modify (fun s => set_editingTrack edit (set_selectedTrackId trackId s)).

(** The injected [addTrack] and [removeTrack] are the store's. *)
Definition addTrack (frame : Z) (defaultType : string) (afterId : option TrackId)
    (cameraName : string) (overrideTrackId : option TrackId) : M Track :=
  s <- get ;;
  r <- lift (TrackStore.addTrack frame defaultType afterId cameraName overrideTrackId (store s)) ;;
  modify (set_store (snd r)) ;;
  ret (fst r).

Definition removeTrack (trackId : TrackId) (disableNotifications : bool) (cameraName : string)
  : M unit :=
  s <- get ;;
  st <- lift (TrackStore.removeTrack trackId disableNotifications cameraName (store s)) ;;
  modify (set_store st).

(** *** The handlers of [useModeManager] *)

Definition _nudgeEditingCanary : M unit :=
  modify (fun s => set_editingCanary (negb (editingCanary s)) s).

Definition linking_error_text (trackId : TrackId) (camera : string) : list string :=
  [ "TrackId: " +:+ Js.show trackId
      +:+ " has tracks on other cameras besides the selected camera " +:+ camera;
    "You need to select a track that only exists on camera: " +:+ camera +:+ " ";
    "You can split of the track you were trying to select by clicking OK and hitting Escape to exit Linking Mode and using the split tool" ].

(** [async function _setLinkingTrack(trackId)]; the prompt it opens has
    no negative button and is not awaited. *)
Definition _setLinkingTrack (trackId : TrackId) : M unit :=
  s <- get ;;
  let trackList := TrackStore.getTrackAll (camMap s) trackId in
  if (1 <? length trackList)%nat then
    emit (EvPrompt "Linking Error" (linking_error_text trackId (linkingCamera s)) false)
  else
    modify (set_linkingTrack (Some trackId)).

Definition handleSelectTrack (trackId : option TrackId) (edit : bool) : M unit :=
  s <- get ;;
  (if negb (creating s && edit && bool_decide (trackId = selectedTrackId s))
   then modify (set_creating false) else ret tt) ;;
  s <- get ;;
  returned <-
    (if Js.not_null trackId && mergeInProgress s then
       match trackId with
       | Some id => modify (set_mergeList (Js.set_add (mergeList s) id))
       | None => ret tt
       end ;;
       ret false
     else if linkingState s then
       match trackId with
       | Some id => async_call (_setLinkingTrack id)
       | None => ret tt
       end ;;
       ret true
     else ret false) ;;
  if returned : bool then ret tt
  else
    s <- get ;;
    selectTrack trackId (edit && negb (mergeInProgress s)).

Definition handleEscapeMode : M unit :=
  s <- get ;;
  match selectedTrackId s with
  | Some id =>
      match TrackStore.getPossibleTrack (camMap s) id (selectedCamera s) with
      | Some track =>
          if begin track =? end_ track then
            let features := getFeature track (begin track) in
            if (length (filter (fun item => item <> None) features) =? 0)%nat
            then removeTrack id true (selectedCamera s)
            else ret tt
          else ret tt
      | None => ret tt
      end
  | None => ret tt
  end ;;
  modify (set_linkingState false) ;;
  modify (set_linkingCamera "") ;;
  modify (set_linkingTrack None) ;;
  modify (set_mergeList []) ;;
  handleSelectTrack None false.

(** [selectedTrackId.value || undefined]: id [0] is falsy. *)
Definition or_undefined (o : option TrackId) : option TrackId :=
  match o with
  | Some id => if id =? 0 then None else Some id
  | None => None
  end.

Definition handleAddTrackOrDetection (overrideTrackId : option TrackId) : M TrackId :=
  s <- get ;;
  let frame := ctl_frame (aggregateController s) in
  trackType <-
    match overrideTrackId with
    | Some oid =>
        track <- lift (TrackStore.getAnyTrack (camMap s) oid) ;;
        match confidencePairs track with
        | pair0 :: _ => ret (fst pair0)
        | [] => throw (mkError JsTypeError "Cannot read properties of undefined (reading '0')")
        end
    | None => ret (nts_type (trackSettings s))
    end ;;
  newTrack <- addTrack frame trackType (or_undefined (selectedTrackId s)) (selectedCamera s)
                overrideTrackId ;;
  let newTrackId := trackId newTrack in
  selectTrack (Some newTrackId) true ;;
  modify (set_creating true) ;;
  ret newTrackId.

(** [newTrackSettings] is taken to be present. *)
Definition newTrackSettingsAfterLogic (addedTrack : Track) : M unit :=
  s <- get ;;
  newCreatingValue <-
    (if creating s then
       match nts_mode (trackSettings s) with
       | ModeTrack =>
           if nts_autoAdvanceFrame (trackSettings s) then
             modify (fun s => set_aggregateController (ctl_nextFrame (aggregateController s)) s) ;;
             ret true
           else ret false
       | ModeDetection =>
           if nts_continuous (trackSettings s) then
             handleAddTrackOrDetection None ;; ret true
           else ret false
       end
     else ret false) ;;
  _nudgeEditingCanary ;;
  modify (set_creating newCreatingValue).

(** The aggregate update collector of [handleUpdateGeoJSON]. *)
Record Update := mkUpdate {
  geoJsonFeatureRecord : list (string * list SupportedFeature);
  u_union : list GeoPolygon;
  u_unionWithoutBounds : list GeoPolygon;
  u_newType : option EditAnnotationTypes;
  u_newSelectedKey : option string;
  u_done : list (option bool);
}.

Definition emptyUpdate : Update := mkUpdate [] [] [] None None [].

Definition key_conflict (name key_ : string) : Error :=
  mkError Conflict
    ("Recipe " +:+ name +:+ " tried to overwrite key " +:+ key_ +:+ " when it was already set").
Definition type_conflict (name : string) : Error :=
  mkError Conflict ("Recipe " +:+ name +:+ " tried to modify type when it was already set").
Definition selectedKey_conflict (name : string) : Error :=
  mkError Conflict
    ("Recipe " +:+ name +:+ " tried to modify selectedKey when it was already set").

(** One turn of the [recipes.forEach] loop: merge the changes of the
    recipe called [name] into the collector, or throw. *)
Definition collect_changes (name : string) (changes : RecipeResult) (update : Update)
  : Error + Update :=
  match find (fun key_ => JsRecord.has key_ (geoJsonFeatureRecord update))
             (JsRecord.keys (data changes)) with
  | Some key_ => inl (key_conflict name key_)
  | None =>
      let update1 :=
        mkUpdate (JsRecord.assign (geoJsonFeatureRecord update) (data changes))
                 (u_union update ++ union changes)
                 (u_unionWithoutBounds update ++ unionWithoutBounds changes)
                 (u_newType update)
                 (u_newSelectedKey update)
                 (u_done update ++ [done changes]) in
      let with_type : Error + Update :=
        if Js.truthy (newType changes) then
          if Js.truthy (u_newType update1) then inl (type_conflict name)
          else inr (mkUpdate (geoJsonFeatureRecord update1) (u_union update1)
                             (u_unionWithoutBounds update1) (newType changes)
                             (u_newSelectedKey update1) (u_done update1))
        else inr update1 in
      match with_type with
      | inl e => inl e
      | inr update2 =>
          if Js.truthy_string (newSelectedKey changes) then
            if Js.truthy_string (u_newSelectedKey update2) then inl (selectedKey_conflict name)
            else inr (mkUpdate (geoJsonFeatureRecord update2) (u_union update2)
                               (u_unionWithoutBounds update2) (u_newType update2)
                               (newSelectedKey changes) (u_done update2))
          else inr update2
      end
  end.

(** The whole [recipes.forEach] loop over the results the recipes return,
    paired with their names. *)
Fixpoint collect (results : list (string * RecipeResult)) (update : Update) : Error + Update :=
  match results with
  | [] => inr update
  | (name, changes) :: rest =>
      match collect_changes name changes update with
      | inl e => inl e
      | inr update' => collect rest update'
      end
  end.

Definition somethingChanged (update : Update) : bool :=
  negb (length (u_union update) =? 0)%nat
  || negb (length (u_unionWithoutBounds update) =? 0)%nat
  || negb (length (JsRecord.keys (geoJsonFeatureRecord update)) =? 0)%nat.

(** The [flatMapDeep] over the collected record. *)
Definition keyed_geometry (record : list (string * list SupportedFeature)) : list KeyedGeometry :=
  flat_map (fun entry => map (with_key (fst entry)) (snd entry)) record.

(** [preventInterrupt] tells whether the caller supplied the callback. *)
Definition handleUpdateGeoJSON (eventType : EventType) (frameNum flickNum : Z)
    (data_ : SupportedFeature) (key : option string) (preventInterrupt : bool) : M unit :=
  s <- get ;;
  match selectedTrackId s with
  | Some id =>
      match TrackStore.getPossibleTrack (camMap s) id (selectedCamera s) with
      | Some track =>
          let '(features, interpolate) := canInterpolate track frameNum in
          let real := match features with Some f :: _ => Some f | _ => None end in
          update <-
            lift (collect
                    (map (fun recipe => (recipe_name recipe,
                                         recipe_update recipe eventType frameNum track [data_] key))
                         (recipes s))
                    emptyUpdate) ;;
          (if somethingChanged update
              && negb (Js.truthy_string (u_newSelectedKey update))
              && negb (Js.truthy (u_newType update))
              && preventInterrupt
           then emit EvPreventInterrupt
           else
             (if Js.truthy_string (u_newSelectedKey update)
              then modify (set_selectedKey (default "" (u_newSelectedKey update)))
              else ret tt) ;;
             match u_newType update with
             | Some newType_ =>
                 modify (set_editing newType_) ;;
                 modify (fun s => set_recipes (map recipe_deactivate (recipes s)) s)
             | None => ret tt
             end) ;;
          if somethingChanged update then
            let written :=
              setFeature
                (mkFeatureInput frameNum flickNum true
                   (updateBounds (real ≫= f_bounds) (u_union update) (u_unionWithoutBounds update))
                   interpolate)
                (keyed_geometry (geoJsonFeatureRecord update))
                track in
            modify (fun s => set_store (TrackStore.replaceTrack (selectedCamera s) id written (store s)) s) ;;
            if bool_decide (eventType = Editing)
               || forallb (fun v => negb (bool_decide (v = Some false))) (u_done update)
            then newTrackSettingsAfterLogic written
            else ret tt
          else ret tt
      | None =>
          throw (mkError NotFound (Js.show id +:+ " missing from trackMap"))
      end
  | None =>
      throw (mkError InvalidState "Cannot call handleUpdateGeojson without a selected Track ID")
  end.

Definition handleUnstageFromMerge (trackIds : list TrackId) : M unit :=
  modify (fun s =>
    set_mergeList (filter (fun trackId => trackId ∉ trackIds) (mergeList s)) s).

Definition delete_confirmation_text (trackIds : list TrackId) : list string :=
  ("Would you like to delete the following tracks:" :: map Js.show trackIds)
    ++ [""; "This setting can be changed under the Track Settings"].

(** [async function handleRemoveTrack].  [userConfirms] is the answer the
    confirmation prompt resolves to once the user has responded; it is
    only consulted when the prompt is shown. *)
Definition handleRemoveTrack (trackIds : list TrackId) (forcePromptDisable : bool)
    (cameraName : string) (userConfirms : bool) : M unit :=
  s <- get ;;
  let maybeNextTrackId := selectNextTrack 1 s in
  let previousOrNext :=
    match maybeNextTrackId with
    | Some next => Some next
    | None => selectNextTrack (-1) s
    end in
  proceed <-
    (if negb forcePromptDisable && del_promptUser (trackSettings s) then
       emit (EvPrompt "Delete Confirmation" (delete_confirmation_text trackIds) true) ;;
       ret userConfirms
     else ret true) ;;
  if proceed : bool then
    forEach (fun trackId => removeTrack trackId false cameraName) trackIds ;;
    handleUnstageFromMerge trackIds ;;
    if String.eqb cameraName "" then selectTrack previousOrNext false else ret tt
  else ret tt.

Definition handleToggleMerge : M (list TrackId) :=
  s <- get ;;
  match selectedTrackId s with
  | Some selected =>
      if negb (mergeInProgress s) then
        modify (set_mergeList [selected]) ;;
        selectTrack (Some selected) false
      else modify (set_mergeList [])
  | None => modify (set_mergeList [])
  end ;;
  s <- get ;;
  ret (mergeList s).

(** [array.map(f)] for an [f] that may throw. *)
Fixpoint mapM {A B} (f : A -> Error + B) (l : list A) : Error + list B :=
  match l with
  | [] => inr []
  | x :: l' =>
      match f x with
      | inl e => inl e
      | inr y => match mapM f l' with inl e => inl e | inr ys => inr (y :: ys) end
      end
  end.

Definition handleCommitMerge : M unit :=
  s <- get ;;
  match mergeList s with
  | first :: second :: rest =>
      track <- lift (TrackStore.getTrack (camMap s) first (selectedCamera s)) ;;
      let otherTrackIds := second :: rest in
      others <- lift (mapM (fun trackId => TrackStore.getTrack (camMap s) trackId (selectedCamera s))
                           otherTrackIds) ;;
      let merged := merge others track in
      modify (fun s => set_store (TrackStore.replaceTrack (selectedCamera s) first merged (store s)) s) ;;
      async_call (handleRemoveTrack otherTrackIds true "" true) ;;
      handleToggleMerge ;;
      handleSelectTrack (Some (trackId merged)) false
  | _ => ret tt
  end.

Definition handleStartLinking (camera : string) : M unit :=
  s <- get ;;
  if negb (linkingState s) && Js.not_null (selectedTrackId s) then
    modify (set_linkingState true) ;;
    if bool_decide (is_Some (camMap s !! camera)) then
      modify (set_linkingCamera camera)
    else
      throw (mkError InvalidState
               ("Camera: " +:+ camera +:+ " does not exist in the system for linking"))
  else if negb (Js.not_null (selectedTrackId s)) then
    throw (mkError InvalidState "Cannot start Linking without a track selected")
  else ret tt.

Definition handleStopLinking : M unit :=
  modify (set_linkingState false) ;;
  modify (set_linkingTrack None) ;;
  modify (set_linkingCamera "").

(** *** Notions used to state the properties of the handlers *)

(** The state [handleSelectTrack] continues from once it has settled the
    [creating] flag. *)
Definition after_creating_check (trackId : option TrackId) (edit : bool) (s : State) : State :=
  if negb (creating s && edit && bool_decide (trackId = selectedTrackId s))
  then set_creating false s else s.

(** The fields [handleEscapeMode] resets, whatever happened to the store. *)
Definition escape_cleared (s : State) : State :=
  set_editingTrack false (set_selectedTrackId None (set_creating false
    (set_mergeList [] (set_linkingTrack None (set_linkingCamera ""
      (set_linkingState false s)))))).

(** The selected track of [s] on the current camera, when there is one. *)
Definition selected_track (s : State) : option Track :=
  selectedTrackId s ≫= fun id => TrackStore.lookup_track (camMap s) id (selectedCamera s).

(** A track is empty when it spans a single frame for which [getFeature]
    yields no feature. *)
Definition empty_track (t : Track) : Prop :=
  begin t = end_ t /\ forall f, Some f ∉ getFeature t (begin t).

(** Two recipe results claim the same thing: a common key in [data], the
    editing type, or the selected key.  A recipe sets [newType] or
    [newSelectedKey] when the value it returns is truthy, which is the
    test the source applies. *)
Definition conflicting (c1 c2 : RecipeResult) : Prop :=
  (exists key_, key_ ∈ JsRecord.keys (data c1) /\ key_ ∈ JsRecord.keys (data c2))
  \/ (Js.truthy (newType c1) = true /\ Js.truthy (newType c2) = true)
  \/ (Js.truthy_string (newSelectedKey c1) = true
      /\ Js.truthy_string (newSelectedKey c2) = true).

(** The collector already holds something the result wants to write. *)
Definition clashes (update : Update) (changes : RecipeResult) : Prop :=
  (exists key_, key_ ∈ JsRecord.keys (data changes)
                /\ JsRecord.has key_ (geoJsonFeatureRecord update) = true)
  \/ (Js.truthy (newType changes) = true /\ Js.truthy (u_newType update) = true)
  \/ (Js.truthy_string (newSelectedKey changes) = true
      /\ Js.truthy_string (u_newSelectedKey update) = true).

(** What the recipes of [s] return for one geometry event, with their
    names, in dispatch order. *)
Definition recipe_results (s : State) (eventType : EventType) (frameNum : Z) (track : Track)
    (data_ : SupportedFeature) (key : option string) : list (string * RecipeResult) :=
  map (fun recipe => (recipe_name recipe,
                      recipe_update recipe eventType frameNum track [data_] key))
      (recipes s).

(** The part of [handleUpdateGeoJSON] that follows the [recipes.forEach]
    loop, for the collected [update]. *)
Definition apply_update (eventType : EventType) (frameNum flickNum : Z)
    (preventInterrupt : bool) (id : TrackId) (track : Track) (update : Update) : M unit :=
  let '(features, interpolate) := canInterpolate track frameNum in
  let real := match features with Some f :: _ => Some f | _ => None end in
  (if somethingChanged update
      && negb (Js.truthy_string (u_newSelectedKey update))
      && negb (Js.truthy (u_newType update))
      && preventInterrupt
   then emit EvPreventInterrupt
   else
     (if Js.truthy_string (u_newSelectedKey update)
      then modify (set_selectedKey (default "" (u_newSelectedKey update)))
      else ret tt) ;;
     match u_newType update with
     | Some newType_ =>
         modify (set_editing newType_) ;;
         modify (fun s => set_recipes (map recipe_deactivate (recipes s)) s)
     | None => ret tt
     end) ;;
  if somethingChanged update then
    let written :=
      setFeature
        (mkFeatureInput frameNum flickNum true
           (updateBounds (real ≫= f_bounds) (u_union update) (u_unionWithoutBounds update))
           interpolate)
        (keyed_geometry (geoJsonFeatureRecord update))
        track in
    modify (fun s => set_store (TrackStore.replaceTrack (selectedCamera s) id written (store s)) s) ;;
    if bool_decide (eventType = Editing)
       || forallb (fun v => negb (bool_decide (v = Some false))) (u_done update)
    then newTrackSettingsAfterLogic written
    else ret tt
  else ret tt.

(** Whether a geometry update that collected [update] calls the caller's
    [preventInterrupt] instead of switching modes. *)
Definition interrupt_prevented (update : Update) (preventInterrupt : bool) : bool :=
  negb (Js.truthy_string (u_newSelectedKey update))
  && negb (Js.truthy (u_newType update))
  && preventInterrupt.

End ModeManager.

(** [sub] occurs in [s]. *)
Definition occurs_in (sub s : string) : Prop :=
  exists pre post, s = pre +:+ sub +:+ post.

(** ** A small instance of the interfaces

    Concrete geometry, tracks and recipes on which the model can be run. *)
Module Demo.

#[local] Instance externals : Externals := {|
  RectBounds := list Z;
  GeoPolygon := list (Z * Z);
  SupportedFeature := string;
  KeyedGeometry := string * string;
  with_key := fun key_ shape => (key_, shape);
  updateBounds := fun old union_ unionNoBounds =>
    match unionNoBounds, union_ with
    | [], [] => old
    | _, _ => Some (flat_map (fun xy => [fst xy; snd xy]) (concat (unionNoBounds ++ union_)))
    end;
  Controller := Z;
  ctl_frame := fun c => c;
  ctl_nextFrame := Z.succ;
  ctl_seek := fun frame _ => frame;
  Score := Z;
  score_new := 1;
  AttributeValue := string;
|}.

Definition written_feature (fi : FeatureInput) (g : list KeyedGeometry) : Feature :=
  mkFeature (fi_frame fi) (fi_bounds fi) g (fi_keyframe fi) (fi_interpolate fi).

#[local] Instance track_methods : TrackMethods := {|
  getFeature := fun t frame => [features t !! frame];
  canInterpolate := fun t frame => ([features t !! frame], false);
  setFeature := fun fi g t =>
    mkTrack (trackId t) (Z.min (begin t) (fi_frame fi)) (Z.max (end_ t) (fi_frame fi))
            (<[fi_frame fi := written_feature fi g]> (features t))
            (confidencePairs t) (attributes t);
  merge := fun others t =>
    mkTrack (trackId t)
            (foldr Z.min (begin t) (map begin others))
            (foldr Z.max (end_ t) (map end_ others))
            (foldr (fun o acc => acc ∪ features o) (features t) others)
            (confidencePairs t) (attributes t);
  setFeature_trackId := fun _ _ _ => eq_refl;
  merge_trackId := fun _ _ => eq_refl;
|}.

(** A recipe that returns a fixed result. *)
Record ConstRecipe := mkConstRecipe {
  cr_name : string;
  cr_active : bool;
  cr_result : RecipeResult;
}.

#[local] Instance recipe_ops : RecipeOps := {|
  Recipe := ConstRecipe;
  recipe_name := cr_name;
  recipe_update := fun r _ _ _ _ _ => cr_result r;
  recipe_deactivate := fun r => mkConstRecipe (cr_name r) false (cr_result r);
|}.

Definition settings : TrackSettings :=
  mkTrackSettings ModeTrack "unknown" false false false true.

(** No neighbouring track to move the selection to. *)
Definition noNextTrack : Z -> State -> option TrackId := fun _ _ => None.

(** A session on [store_] with [recipes_] and nothing selected. *)
Definition session (store_ : TrackStore.Store) (recipes_ : list ConstRecipe) : State :=
  mkState store_ None "singleCam" false 0 recipes_ settings false
          [VisEdit EditRectangle; VisEdit EditPolygon; VisEdit EditLineString; VisText]
          EditRectangle (-1) "" false [] false None "" [].

(** The store after [n] calls of [addTrack(frame, 'foo')] on the default
    camera, one per listed frame. *)
Fixpoint store_with (frames : list Z) (st : TrackStore.Store) : TrackStore.Store :=
  match frames with
  | [] => st
  | frame :: rest =>
      match TrackStore.addTrack frame "foo" None "singleCam" None st with
      | inr (_, st') => store_with rest st'
      | inl _ => st
      end
  end.

(** The store of the first test of [useTrackStore.spec.ts]: track 0 at
    frame 20 and track 1 at frame 10. *)
Definition two_tracks : TrackStore.Store := store_with [20; 10] TrackStore.emptyStore.

Definition track0 : Track := TrackStore.newTrack 0 20 "foo".
Definition track1 : Track := TrackStore.newTrack 1 10 "foo".

(** A two-camera store: track 0 on both cameras, track 1 on the right
    camera only. *)
Definition stereo_empty : TrackStore.Store :=
  TrackStore.mkStore {[ "left" := ∅; "right" := ∅ ]} ∅ 0.

Definition add_to (frame : Z) (cam : string) (override : option TrackId)
    (st : TrackStore.Store) : TrackStore.Store :=
  match TrackStore.addTrack frame "fish" None cam override st with
  | inr (_, st') => st'
  | inl _ => st
  end.

(** The store after [removeTrack(id)]. *)
Definition remove_from (id : TrackId) (st : TrackStore.Store) : TrackStore.Store :=
  match TrackStore.removeTrack id false "" st with
  | inr st' => st'
  | inl _ => st
  end.

Definition stereo : TrackStore.Store :=
  add_to 7 "right" (Some 0) (add_to 5 "right" None (add_to 5 "left" None stereo_empty)).

(** Recipes: one that draws a polygon and switches the editing type, one
    that switches to line editing, one that has nothing to contribute. *)
Definition polygon_recipe : ConstRecipe :=
  mkConstRecipe "PolygonBase" true
    (mkRecipeResult [("", ["polygon"])] [[(0, 0); (4, 0); (4, 3)]] [] (Some EditPolygon) None
                    (Some true)).

Definition line_recipe : ConstRecipe :=
  mkConstRecipe "LineBase" true (mkRecipeResult [] [] [] (Some EditLineString) None None).

Definition idle_recipe : ConstRecipe :=
  mkConstRecipe "HeadTail" true (mkRecipeResult [] [] [] None None None).

(** Track 0 selected, with two recipes that both want to change the
    editing type. *)
Definition s_conflict : State :=
  set_selectedTrackId (Some 0) (session two_tracks [polygon_recipe; line_recipe]).

(** Track 0 selected; the polygon recipe draws and changes the type. *)
Definition s_draw : State :=
  set_selectedTrackId (Some 0) (session two_tracks [polygon_recipe; idle_recipe]).

Definition drawn_update : Update :=
  mkUpdate [("", ["polygon"])] [[(0, 0); (4, 0); (4, 3)]] [] (Some EditPolygon) None
           [Some true; None].

(** Track 0 selected; no recipe draws anything. *)
Definition s_idle : State :=
  set_selectedTrackId (Some 0) (session two_tracks [idle_recipe]).

(** Track 1 selected and staged for merging. *)
Definition s_merging : State :=
  set_mergeList [1] (set_selectedTrackId (Some 1) (session two_tracks [])).

(** Tracks 0 and 1 staged for merging, both on the current camera. *)
Definition s_commit : State :=
  set_mergeList [0; 1] (set_selectedTrackId (Some 1) (session two_tracks [])).

(** Tracks 0 and 1 staged for merging on the left camera, which does not
    hold track 1. *)
Definition s_commit_other_camera : State :=
  set_mergeList [0; 1] (set_selectedTrackId (Some 1)
    (set_selectedCamera "left" (session stereo []))).

(** Track 0 selected on the left camera, linking towards the right one. *)
Definition s_linking : State :=
  set_linkingCamera "right" (set_linkingState true (set_selectedTrackId (Some 0)
    (set_selectedCamera "left" (session stereo [])))).

(** Track 1 selected, not linking. *)
Definition s_selected : State :=
  set_selectedTrackId (Some 1) (session two_tracks []).

(** A freshly created, still empty track 2 selected for editing. *)
Definition s_new_track : State :=
  set_editingTrack true (set_selectedTrackId (Some 2)
    (session (store_with [20; 10; 30] TrackStore.emptyStore) [])).

End Demo.

(** * The remaining handlers and derived state of [useModeManager] *)

Global Instance VisibleAnnotationTypes_eq_dec : EqDecision VisibleAnnotationTypes.
Proof. solve_decision. Defined.

(** The [Recipe] methods used when removing a point or a whole annotation;
    each returns the track it leaves behind. *)
Class RecipeRemoval `{Externals} `{!RecipeOps} := {
  (** [recipe.active.value] *)
  recipe_active : Recipe -> bool;
  (** [recipe.deletePoint(frame, track, handle, key, type)] *)
  recipe_deletePoint : Recipe -> Z -> Track -> Z -> string -> EditAnnotationTypes -> Track;
  (** [recipe.delete(frame, track, key, type)] *)
  recipe_delete : Recipe -> Z -> Track -> string -> EditAnnotationTypes -> Track;
}.

(** What [editingDetails] evaluates to. *)
Inductive EditingDetails := DetailsDisabled | DetailsCreating | DetailsEditing.

(** The argument object of [handleSetAnnotationState]. *)
Record SetAnnotationStateArgs := mkSetAnnotationStateArgs {
  arg_visible : option (list VisibleAnnotationTypes);
  arg_editing : option EditAnnotationTypes;
  arg_key : option string;
  arg_recipeName : option string;
}.

Section MoreHandlers.
Context `{Ext : Externals} `{!TrackMethods} `{!RecipeOps} `{!RecipeRemoval}.

Local Notation "x <- m ;; k" := (bind m (fun x => k))
  (at level 100, m at next level, right associativity).
Local Notation "m ;; k" := (bind m (fun _ => k))
  (at level 100, right associativity).

(** [selectNextTrack(delta)], injected by the caller. *)
Variable selectNextTrack : Z -> State -> option TrackId.

(** [item.geometry.type === annotationModes.editing] for a shape stored on
    a feature; GeoJSON geometry is outside the modelled code. *)
Variable has_geometry_type : EditAnnotationTypes -> KeyedGeometry -> bool.

(** *** Derived state *)

(** [editingMode = computed(() => editingTrack.value && annotationModes.editing)]:
    [None] stands for [false]. *)
Definition editingMode (s : State) : option EditAnnotationTypes :=
  if editingTrack s then Some (editing s) else None.

(** lodash's [uniq]: first occurrences, in order. *)
Fixpoint uniq (seen l : list VisibleAnnotationTypes) : list VisibleAnnotationTypes :=
  match l with
  | [] => []
  | x :: l' =>
      if bool_decide (x ∈ seen) then uniq seen l'
      else x :: uniq (x :: seen) l'
  end.

(** [visibleModes = computed(() => uniq(annotationModes.visible.concat(editingMode.value || [])))] *)
Definition visibleModes (s : State) : list VisibleAnnotationTypes :=
  uniq [] (visible s ++ match editingMode s with
                        | Some t => [VisEdit t]
                        | None => []
                        end).

(** [editingDetails].  A feature's [bounds], when present, is a rectangle of
    four numbers, so [!feature?.bounds?.length] holds exactly when the
    feature has no bounds. *)
Definition editingDetails (s : State) : EditingDetails :=
  match editingMode s, selectedTrackId s with
  | Some _, Some id =>
      let frame := ctl_frame (aggregateController s) in
      match TrackStore.getPossibleTrack (camMap s) id (selectedCamera s) with
      | Some track =>
          match getFeature track frame with
          | Some feature :: _ =>
              match f_bounds feature with
              | None => DetailsCreating
              | Some _ =>
                  if bool_decide (editing s = EditRectangle) then DetailsEditing
                  else if (length (filter (fun item => has_geometry_type (editing s) item = true)
                                         (f_geometry feature)) =? 0)%nat
                       then DetailsCreating else DetailsEditing
              end
          | _ => DetailsCreating
          end
      | None => DetailsDisabled
      end
  | _, _ => DetailsDisabled
  end.

(** *** Small helpers *)

(** [_shouldInterpolate(canInterpolate)] *)
Definition _shouldInterpolate (s : State) (canInterpolate_ : bool) : bool :=
  let interpolateTrack :=
    if creating s then nts_interpolate (trackSettings s) else canInterpolate_ in
  match nts_mode (trackSettings s) with
  | ModeDetection => false
  | ModeTrack => interpolateTrack
  end.

Definition seekNearest (track : Track) : M unit :=
  s <- get ;;
  let frame := ctl_frame (aggregateController s) in
  if frame <? begin track then
    modify (set_aggregateController (ctl_seek (begin track) (aggregateController s)))
  else if end_ track <? frame then
    modify (set_aggregateController (ctl_seek (end_ track) (aggregateController s)))
  else ret tt.

(** [typeof key === 'string'] holds exactly when a key was passed. *)
Definition _selectKey (key : option string) : M unit :=
  match key with
  | Some k => modify (set_selectedKey k)
  | None => modify (set_selectedKey "")
  end.

(** [handleSelectFeatureHandle(i, key = '')] *)
Definition handleSelectFeatureHandle (i : Z) (key : option string) : M unit :=
  s <- get ;;
  (if negb (i =? selectedFeatureHandle s)
   then modify (set_selectedFeatureHandle i)
   else modify (set_selectedFeatureHandle (-1))) ;;
  _selectKey (Some (default "" key)).

(** *** Rectangle updates *)

(** [track.setFeature(feature)] is called without shapes. *)
Definition handleUpdateRectBounds (frameNum flickNum : Z) (bounds : RectBounds) : M unit :=
  s <- get ;;
  match selectedTrackId s with
  | Some id =>
      match TrackStore.getPossibleTrack (camMap s) id (selectedCamera s) with
      | Some track =>
          let interpolate := snd (canInterpolate track frameNum) in
          let written :=
            setFeature
              (mkFeatureInput frameNum flickNum true (Some bounds) (_shouldInterpolate s interpolate))
              [] track in
          modify (fun s => set_store (TrackStore.replaceTrack (selectedCamera s) id written (store s)) s) ;;
          newTrackSettingsAfterLogic written
      | None => ret tt
      end
  | None => ret tt
  end.

(** *** Removing points and annotations *)

(** A method call that mutates, in place, the track the store holds for
    [id] on camera [cameraName]. *)
Definition mutateTrack (cameraName : string) (id : TrackId) (f : Track -> Track) : M unit :=
  s <- get ;;
  match TrackStore.getPossibleTrack (camMap s) id cameraName with
  | Some track => modify (set_store (TrackStore.replaceTrack cameraName id (f track) (store s)))
  | None => ret tt
  end.

Definition handleRemovePoint : M unit :=
  s <- get ;;
  (if Js.not_null (selectedTrackId s) && negb (selectedFeatureHandle s =? -1) then
     match selectedTrackId s with
     | Some id =>
         match TrackStore.getPossibleTrack (camMap s) id (selectedCamera s) with
         | Some _ =>
             forEach
               (fun r =>
                  if recipe_active r then
                    let frame := ctl_frame (aggregateController s) in
                    mutateTrack (selectedCamera s) id
                      (fun track => recipe_deletePoint r frame track (selectedFeatureHandle s)
                                                       (selectedKey s) (editing s))
                  else ret tt)
               (recipes s)
         | None => ret tt
         end
     | None => ret tt
     end
   else ret tt) ;;
  handleSelectFeatureHandle (-1) None.

Definition handleRemoveAnnotation : M unit :=
  s <- get ;;
  match selectedTrackId s with
  | Some id =>
      match TrackStore.getPossibleTrack (camMap s) id (selectedCamera s) with
      | Some _ =>
          let frame := ctl_frame (aggregateController s) in
          forEach
            (fun r =>
               if recipe_active r then
                 mutateTrack (selectedCamera s) id
                   (fun track => recipe_delete r frame track (selectedKey s) (editing s))
               else ret tt)
            (recipes s) ;;
          _nudgeEditingCanary
      | None => ret tt
      end
  | None => ret tt
  end.

(** *** Editing, stepping and annotation state *)

Definition handleTrackEdit (trackId_ : TrackId) : M unit :=
  s <- get ;;
  match TrackStore.getPossibleTrack (camMap s) trackId_ (selectedCamera s) with
  | Some track =>
      let editing_ :=
        if bool_decide (Some trackId_ = selectedTrackId s) then negb (editingTrack s) else true in
      handleSelectTrack (Some trackId_) editing_
  | None =>
      (* [getAnyTrack] throws when no camera holds the id and returns a track
         otherwise, so the comparison with [undefined] always succeeds *)
      lift (TrackStore.getAnyTrack (camMap s) trackId_) ;;
      handleAddTrackOrDetection (Some trackId_) ;;
      s <- get ;;
      match TrackStore.getPossibleTrack (camMap s) trackId_ (selectedCamera s) with
      | Some camTrack =>
          let editing_ := bool_decide (Some trackId_ = selectedTrackId s) in
          handleSelectTrack (Some trackId_) editing_
      | None => ret tt
      end
  end.

Definition handleSelectNext (delta : Z) : M unit :=
  s <- get ;;
  match selectNextTrack delta s with
  | Some newTrack =>
      handleSelectTrack (Some newTrack) false ;;
      s <- get ;;
      track <- lift (TrackStore.getAnyTrack (camMap s) newTrack) ;;
      seekNearest track
  | None => ret tt
  end.

(** An array is truthy even when empty, so [if (visible)] tests presence. *)
Definition handleSetAnnotationState (args : SetAnnotationStateArgs) : M unit :=
  match arg_visible args with
  | Some visible_ => modify (set_visible visible_)
  | None => ret tt
  end ;;
  match arg_editing args with
  | Some editing_ =>
      modify (set_editing editing_) ;;
      _selectKey (arg_key args) ;;
      s <- get ;;
      handleSelectTrack (selectedTrackId s) true ;;
      modify (fun s =>
        set_recipes
          (map (fun r => if bool_decide (arg_recipeName args <> Some (recipe_name r))
                         then recipe_deactivate r else r)
               (recipes s)) s)
  | None => ret tt
  end.

(** *** The handlers as actions on a session

    One action for each of the seventeen handlers modelled above.  The two
    remaining handlers of the manager, [handleTrackClick] and
    [handleTrackTypeChange], call [getTracksMerged] and [Track.setType],
    which lie outside the modelled code; they have no action, and
    statements over [Action] do not speak about them. *)

Inductive Action :=
| ASelectTrack (trackId_ : option TrackId) (edit : bool)
| AEscape
| AAddTrackOrDetection (overrideTrackId : option TrackId)
| AUpdateRectBounds (frameNum flickNum : Z) (bounds : RectBounds)
| AUpdateGeoJSON (eventType : EventType) (frameNum flickNum : Z) (data_ : SupportedFeature)
                 (key : option string) (preventInterrupt : bool)
| ARemovePoint
| ARemoveAnnotation
| AUnstageFromMerge (trackIds : list TrackId)
| ARemoveTrack (trackIds : list TrackId) (forcePromptDisable : bool) (cameraName : string)
               (userConfirms : bool)
| ATrackEdit (trackId_ : TrackId)
| ASelectNext (delta : Z)
| ASelectFeatureHandle (i : Z) (key : option string)
| ASetAnnotationState (args : SetAnnotationStateArgs)
| AToggleMerge
| ACommitMerge
| AStartLinking (camera : string)
| AStopLinking.

(** The session an action leaves behind, whether its handler returns or
    throws. *)
Definition perform (a : Action) (s : State) : State :=
  match a with
  | ASelectTrack trackId_ edit => final (handleSelectTrack trackId_ edit s)
  | AEscape => final (handleEscapeMode s)
  | AAddTrackOrDetection overrideTrackId => final (handleAddTrackOrDetection overrideTrackId s)
  | AUpdateRectBounds frameNum flickNum bounds =>
      final (handleUpdateRectBounds frameNum flickNum bounds s)
  | AUpdateGeoJSON eventType frameNum flickNum data_ key preventInterrupt =>
      final (handleUpdateGeoJSON eventType frameNum flickNum data_ key preventInterrupt s)
  | ARemovePoint => final (handleRemovePoint s)
  | ARemoveAnnotation => final (handleRemoveAnnotation s)
  | AUnstageFromMerge trackIds => final (handleUnstageFromMerge trackIds s)
  | ARemoveTrack trackIds forcePromptDisable cameraName userConfirms =>
      final (handleRemoveTrack selectNextTrack trackIds forcePromptDisable cameraName userConfirms s)
  | ATrackEdit trackId_ => final (handleTrackEdit trackId_ s)
  | ASelectNext delta => final (handleSelectNext delta s)
  | ASelectFeatureHandle i key => final (handleSelectFeatureHandle i key s)
  | ASetAnnotationState args => final (handleSetAnnotationState args s)
  | AToggleMerge => final (handleToggleMerge s)
  | ACommitMerge => final (handleCommitMerge selectNextTrack s)
  | AStartLinking camera => final (handleStartLinking camera s)
  | AStopLinking => final (handleStopLinking s)
  end.

(** A statement keeps the property [P] of sessions, whether it returns or
    throws. *)
Definition preserves {A} (P : State -> Prop) (m : M A) : Prop :=
  forall s, P s -> P (final (m s)).

(** The session after the handlers of [actions] ran one after the other. *)
Definition perform_all (actions : list Action) (s : State) : State :=
  fold_left (fun s a => perform a s) actions s.

(** The handlers that reach the track store: they add, remove or mutate a
    track. *)
Definition writes_tracks (a : Action) : bool :=
  match a with
  | AEscape | AAddTrackOrDetection _ | AUpdateRectBounds _ _ _ | AUpdateGeoJSON _ _ _ _ _ _
  | ARemovePoint | ARemoveAnnotation | ARemoveTrack _ _ _ _ | ATrackEdit _ | ACommitMerge => true
  | _ => false
  end.

(** No id is staged for merging twice. *)
Definition merge_list_distinct (s : State) : Prop := NoDup (mergeList s).

(** Outside linking mode neither a linking track nor a linking camera is
    held. *)
Definition linking_idle (s : State) : Prop :=
  linkingState s = false -> linkingTrack s = None /\ linkingCamera s = "".

(** A recipe's data is keyed by a name that every JS object inherits, so
    that [key in update.geoJsonFeatureRecord] holds on the empty record. *)
Definition inherited_key (changes : RecipeResult) : Prop :=
  exists key_, key_ ∈ JsRecord.keys (data changes)
               /\ key_ ∈ @JsRecord.prototype_keys.

(** Two of the results, the first dispatched before the second, are
    [conflicting]. *)
Definition conflict_among (results : list (string * RecipeResult)) : Prop :=
  exists before n1 c1 between n2 c2 after,
    results = before ++ (n1, c1) :: between ++ (n2, c2) :: after /\ conflicting c1 c2.


(** [newTrackSettings.mode === 'Track' && modeSettings.Track.autoAdvanceFrame] *)
Definition auto_advances (settings : TrackSettings) : bool :=
  match nts_mode settings with
  | ModeTrack => nts_autoAdvanceFrame settings
  | ModeDetection => false
  end.

(** [newTrackSettings.mode === 'Detection' && modeSettings.Detection.continuous] *)
Definition continues_detections (settings : TrackSettings) : bool :=
  match nts_mode settings with
  | ModeTrack => false
  | ModeDetection => nts_continuous settings
  end.

End MoreHandlers.


(** ** Recipes that can take their geometry back

    The constant recipes of [Demo] as removable ones: [deletePoint] has no
    point of its own to take away, [delete] drops the feature of the
    frame. *)
Module DemoRemoval.
Import Demo.
#[local] Existing Instances Demo.externals Demo.track_methods Demo.recipe_ops.

#[local] Instance recipe_removal : RecipeRemoval := {|
  recipe_active := cr_active;
  recipe_deletePoint := fun _ _ track _ _ _ => track;
  recipe_delete := fun _ frame track _ _ =>
    mkTrack (trackId track) (begin track) (end_ track) (delete frame (features track))
            (confidencePairs track) (attributes track);
|}.

(** Shapes carry their geometry type as their second component. *)
Definition has_geometry_type (t : EditAnnotationTypes) (shape : KeyedGeometry) : bool :=
  String.eqb (snd shape)
    match t with
    | EditRectangle => "rectangle"
    | EditPolygon => "Polygon"
    | EditLineString => "LineString"
    | EditPoint => "Point"
    end.

(** Track 0 selected and being edited, nothing staged, not linking. *)
Definition s_editing : State :=
  set_editingTrack true (set_selectedTrackId (Some 0) (session two_tracks [idle_recipe])).

(** Tracks 0 and 7 staged for merging; no camera holds a track 7. *)
Definition s_commit_missing : State :=
  set_mergeList [0; 7] (set_selectedTrackId (Some 0) (session two_tracks [])).

(** A recipe whose data is keyed by a name every object inherits. *)
Definition inherited_recipe : ConstRecipe :=
  mkConstRecipe "Inherited" true
    (mkRecipeResult [("constructor", ["polygon"])] [] [] None None None).

Definition s_inherited : State :=
  set_selectedTrackId (Some 0) (session two_tracks [inherited_recipe]).



End DemoRemoval.

(** * Properties *)

(** ** Strings *)

Lemma string_app_nil_r (s : string) : s +:+ "" = s.
Proof.
  induction s as [|ch s IH]; [reflexivity|].
  change (String ch (s +:+ "") = String ch s). now rewrite IH.
Qed.

Lemma string_app_assoc (s1 s2 s3 : string) : (s1 +:+ s2) +:+ s3 = s1 +:+ (s2 +:+ s3).
Proof.
  induction s1 as [|ch s1 IH]; [reflexivity|].
  change (String ch ((s1 +:+ s2) +:+ s3) = String ch (s1 +:+ (s2 +:+ s3))). now rewrite IH.
Qed.

(** ** Facts about the track store *)

Section StoreFacts.
Context `{Ext : Externals}.
Import TrackStore.

Lemma lookup_track_alter_delete (cm : gmap string (gmap Z Track)) cam id c i :
  TrackStore.lookup_track (alter (delete id) cam cm) i c =
  if decide (c = cam /\ i = id) then None else TrackStore.lookup_track cm i c.
Proof.
  unfold TrackStore.lookup_track. rewrite lookup_alter.
  destruct (decide (c = cam /\ i = id)) as [[-> ->]|Hne].
  - rewrite decide_True by reflexivity. destruct (cm !! cam); cbn; [apply lookup_delete_eq|reflexivity].
  - destruct (decide (cam = c)) as [->|Hc]; [|reflexivity].
    destruct (cm !! c); cbn; [|reflexivity].
    apply lookup_delete_ne. intros ->. tauto.
Qed.

Lemma lookup_track_fmap_delete (cm : gmap string (gmap Z Track)) id c i :
  TrackStore.lookup_track (delete id <$> cm) i c =
  if decide (i = id) then None else TrackStore.lookup_track cm i c.
Proof.
  unfold TrackStore.lookup_track. rewrite lookup_fmap.
  destruct (cm !! c); cbn.
  - destruct (decide (i = id)) as [->|Hne]; [apply lookup_delete_eq|by apply lookup_delete_ne].
  - destruct (decide (i = id)); reflexivity.
Qed.

Lemma removeTrack_lookup id quiet cam st st' :
  TrackStore.removeTrack id quiet cam st = inr st' ->
  forall i c,
    TrackStore.lookup_track (TrackStore.camMap st') i c =
    if decide (i = id /\ (cam = "" \/ c = cam)) then None
    else TrackStore.lookup_track (TrackStore.camMap st) i c.
Proof.
  unfold TrackStore.removeTrack. intros Hr i c.
  destruct (String.eqb cam "") eqn:Ecam.
  - apply String.eqb_eq in Ecam. subst cam.
    destruct (TrackStore.getTrackAll _ _); [discriminate|].
    injection Hr as <-. cbn. rewrite lookup_track_fmap_delete.
    destruct (decide (i = id)) as [->|Hne].
    + rewrite decide_True by tauto. reflexivity.
    + rewrite decide_False by tauto. reflexivity.
  - apply String.eqb_neq in Ecam.
    destruct (TrackStore.lookup_track _ _ _); [|discriminate].
    injection Hr as <-. cbn. rewrite lookup_track_alter_delete.
    destruct (decide (c = cam /\ i = id)) as [[-> ->]|Hne].
    + rewrite decide_True by tauto. reflexivity.
    + rewrite decide_False by tauto. reflexivity.
Qed.

Lemma replaceTrack_lookup cam id t st i c :
  is_Some (TrackStore.lookup_track (TrackStore.camMap st) id cam) ->
  TrackStore.lookup_track (TrackStore.camMap (TrackStore.replaceTrack cam id t st)) i c =
  if decide (c = cam /\ i = id) then Some t
  else TrackStore.lookup_track (TrackStore.camMap st) i c.
Proof.
  intros [t0 Ht0]. unfold TrackStore.replaceTrack. rewrite Ht0. cbn.
  unfold TrackStore.lookup_track in *. rewrite lookup_alter.
  destruct (TrackStore.camMap st !! cam) as [m|] eqn:Em; [|discriminate].
  destruct (decide (c = cam /\ i = id)) as [[-> ->]|Hne].
  - rewrite decide_True by reflexivity. cbn. apply lookup_insert_eq.
  - destruct (decide (cam = c)) as [<-|Hc]; [|reflexivity].
    rewrite Em. cbn. apply lookup_insert_ne. intros ->. tauto.
Qed.

(** C8: when no track with the given id exists on the given camera,
    [getTrack] fails with a [NotFound] error whose message names both the
    id and the camera (the message [useTrackStore.spec.ts] expects); when
    the track exists, it is returned. *)
Theorem getTrack_spec (cm : gmap string (gmap Z Track)) (id : TrackId) (cameraName : string) :
  (lookup_track cm id cameraName = None ->
     exists e, getTrack cm id cameraName = inl e
               /\ kind e = NotFound
               /\ message e = "TrackId " +:+ Js.show id
                               +:+ " not found in trackMap with cameraName " +:+ cameraName
               /\ occurs_in (Js.show id) (message e)
               /\ occurs_in cameraName (message e))
  /\ (forall t, lookup_track cm id cameraName = Some t -> getTrack cm id cameraName = inr t).
Proof.
  unfold getTrack. split.
  - intros ->. eexists. split; [reflexivity|]. cbn [kind message].
    split; [reflexivity|]. split; [reflexivity|]. unfold not_found_message. split.
    + exists "TrackId ", (" not found in trackMap with cameraName " +:+ cameraName). reflexivity.
    + exists ("TrackId " +:+ Js.show id +:+ " not found in trackMap with cameraName "), "".
      rewrite string_app_nil_r, !string_app_assoc. reflexivity.
  - intros t ->. reflexivity.
Qed.

Lemma addTrack_lookup frame ty after cam override st t st' :
  addTrack frame ty after cam override st = inr (t, st') ->
  begin t = frame /\ end_ t = frame
  /\ intervalIndex st' = <[(cam, trackId t) := (frame, frame)]> (intervalIndex st)
  /\ lookup_track (camMap st) (trackId t) cam = None
  /\ forall i c,
       lookup_track (camMap st') i c =
       if decide (c = cam /\ i = trackId t) then Some t else lookup_track (camMap st) i c.
Proof.
  unfold addTrack. destruct (camMap st !! cam) as [m|] eqn:Em; [|discriminate].
  destruct (m !! default (nextId st) override) eqn:Eid; [discriminate|].
  intros [= <- <-]. cbn. repeat split; try reflexivity.
  - unfold lookup_track. rewrite Em. exact Eid.
  - intros i c. unfold lookup_track. rewrite lookup_insert.
    destruct (decide (c = cam /\ i = default (nextId st) override)) as [[-> ->]|Hne].
    + rewrite decide_True by reflexivity. cbn. apply lookup_insert_eq.
    + destruct (decide (cam = c)) as [<-|Hc]; [|reflexivity].
      rewrite Em. cbn. apply lookup_insert_ne. intros <-. tauto.
Qed.

Lemma reachable_consistent st :
  reachable st -> index_consistent st /\ ranges_ordered st.
Proof.
  induction 1 as [st Hidx Hempty
                 |st frame ty after cam override t st' _ [IHc IHr] Hadd
                 |st id quiet cam st' _ [IHc IHr] Hrem
                 |st cam id t _ [IHc IHr] Hid Hrange].
  - assert (Hnone : forall i c, lookup_track (camMap st) i c = None).
    { intros i c. unfold lookup_track. destruct (camMap st !! c) as [m|] eqn:Em; [|reflexivity].
      rewrite (Hempty c m Em). cbn. apply lookup_empty. }
    split.
    + intros c id r. rewrite Hidx, lookup_empty. split; [discriminate|].
      intros (t & Ht & _). rewrite Hnone in Ht. discriminate.
    + intros c id t Ht. rewrite Hnone in Ht. discriminate.
  - apply addTrack_lookup in Hadd as (Hb & He & Hidx & _ & Hl). split.
    + intros c id r. rewrite Hidx, Hl.
      destruct (decide (c = cam /\ id = trackId t)) as [[-> ->]|Hne].
      * rewrite lookup_insert_eq. split.
        -- intros [= <-]. exists t. rewrite Hb, He. auto.
        -- intros (t' & [= <-] & ->). rewrite Hb, He. reflexivity.
      * rewrite lookup_insert_ne by (intros [= <- <-]; tauto). apply IHc.
    + intros c id t' Ht'. rewrite Hl in Ht'.
      destruct (decide (c = cam /\ id = trackId t)); [|eapply IHr; eassumption].
      injection Ht' as <-. lia.
  - pose proof (removeTrack_lookup _ _ _ _ _ Hrem) as Hl. split.
    + intros c i r. rewrite Hl.
      assert (Hidx : intervalIndex st' !! (c, i) =
                     if decide (i = id /\ (cam = "" \/ c = cam)) then None
                     else intervalIndex st !! (c, i)).
      { unfold removeTrack in Hrem. destruct (String.eqb cam "") eqn:Ecam.
        - apply String.eqb_eq in Ecam. subst cam.
          destruct (getTrackAll _ _); [discriminate|]. injection Hrem as <-. cbn.
          destruct (decide (i = id /\ ("" = "" \/ c = ""))) as [[-> _]|Hne].
          + apply map_lookup_filter_None. right. intros x _ Hx. cbn in Hx. congruence.
          + destruct (intervalIndex st !! (c, i)) as [x|] eqn:Ex.
            * apply map_lookup_filter_Some. split; [exact Ex|]. cbn. intros ->. tauto.
            * apply map_lookup_filter_None. left. exact Ex.
        - apply String.eqb_neq in Ecam.
          destruct (lookup_track _ _ _); [|discriminate]. injection Hrem as <-. cbn.
          destruct (decide (i = id /\ (cam = "" \/ c = cam))) as [[-> [?| ->]]|Hne];
            [congruence|apply lookup_delete_eq|].
          apply lookup_delete_ne. intros [= <- <-]. tauto. }
      rewrite Hidx. destruct (decide _); [|apply IHc].
      split; [discriminate|]. intros (t & Ht & _). discriminate.
    + intros c i t Ht. rewrite Hl in Ht. destruct (decide _); [discriminate|].
      eapply IHr; eassumption.
  - destruct (lookup_track (camMap st) id cam) as [t0|] eqn:Et0.
    2:{ unfold replaceTrack. rewrite Et0. auto. }
    assert (Hl : forall i c,
      lookup_track (camMap (replaceTrack cam id t st)) i c =
      if decide (c = cam /\ i = id) then Some t else lookup_track (camMap st) i c).
    { intros i c. apply replaceTrack_lookup. rewrite Et0. eauto. }
    split.
    + intros c i r. rewrite Hl. unfold replaceTrack. rewrite Et0. cbn.
      destruct (decide (c = cam /\ i = id)) as [[-> ->]|Hne].
      * rewrite lookup_insert_eq. split.
        -- intros [= <-]. eauto.
        -- intros (t' & [= <-] & ->). reflexivity.
      * rewrite lookup_insert_ne by (intros [= <- <-]; tauto). apply IHc.
    + intros c i t' Ht'. rewrite Hl in Ht'.
      destruct (decide (c = cam /\ i = id)); [|eapply IHr; eassumption].
      injection Ht' as <-. exact Hrange.
Qed.

Lemma overlaps_intersects lo hi a b :
  lo <= hi -> a <= b ->
  (overlaps (lo, hi) (a, b) = true <-> intersects lo hi a b).
Proof.
  intros Hr Hq. unfold overlaps, intersects. cbn.
  rewrite andb_true_iff, !Z.leb_le. split.
  - intros [H1 H2]. exists (Z.max lo a). lia.
  - intros (f & H1 & H2). lia.
Qed.

(** C9: in every store obtained by adding and removing tracks (and by
    in-place mutations that keep frame ranges well formed), a query for
    the range [[a, b]] returns exactly the ids of the tracks whose
    inclusive range [[begin, end]] shares a frame with [[a, b]]. *)
Theorem queryInterval_exact (st : Store) (a b : Z) (id : TrackId) :
  reachable st ->
  a <= b ->
  (id ∈ queryInterval (a, b) st
   <-> exists c t, lookup_track (camMap st) id c = Some t
                   /\ intersects (begin t) (end_ t) a b).
Proof.
  intros Hreach Hab. apply reachable_consistent in Hreach as [Hc Hr].
  unfold queryInterval. rewrite list_elem_of_fmap. split.
  - intros ([[c i] r] & -> & Hin). cbn.
    apply list_elem_of_filter in Hin as [Hov Hin]. cbn in Hov.
    apply elem_of_map_to_list in Hin. apply Hc in Hin as (t & Ht & ->).
    exists c, t. split; [exact Ht|].
    apply overlaps_intersects; [eapply Hr; eassumption|exact Hab|exact Hov].
  - intros (c & t & Ht & Hint).
    exists ((c, id), (begin t, end_ t)). split; [reflexivity|].
    apply list_elem_of_filter. split.
    + cbn. apply overlaps_intersects; [eapply Hr; eassumption|exact Hab|exact Hint].
    + apply elem_of_map_to_list. apply Hc. eauto.
Qed.
Lemma getTrackAll_elem (cm : gmap string (gmap Z Track)) id cam t :
  lookup_track cm id cam = Some t -> t ∈ getTrackAll cm id.
Proof.
  unfold getTrackAll, lookup_track. intros Hl.
  destruct (cm !! cam) as [m|] eqn:Em; [|discriminate]. cbn in Hl.
  apply list_elem_of_omap. exists (cam, m). split; [|exact Hl].
  apply elem_of_map_to_list. exact Em.
Qed.

Lemma removeTrack_present id quiet cam cam' st t :
  lookup_track (camMap st) id cam = Some t ->
  cam' = "" \/ cam' = cam ->
  exists st', removeTrack id quiet cam' st = inr st'.
Proof.
  intros Hl Hcam. unfold removeTrack.
  destruct (String.eqb cam' "") eqn:Ecam.
  - destruct (getTrackAll _ _) eqn:Eall; [|eauto].
    apply getTrackAll_elem in Hl. rewrite Eall in Hl. inversion Hl.
  - apply String.eqb_neq in Ecam. destruct Hcam as [->| ->]; [congruence|].
    rewrite Hl. eauto.
Qed.

End StoreFacts.

(** ** Facts about records and sets of ids *)

Section Records.
Context {V : Type}.
Implicit Types o target source : list (string * V).

Lemma has_own_set k k' v o :
  JsRecord.has_own k (JsRecord.set k' v o) = JsRecord.has_own k o || String.eqb k k'.
Proof.
  unfold JsRecord.has_own, JsRecord.keys.
  induction o as [|[k0 v0] o IH]; cbn.
  - apply orb_false_r.
  - destruct (String.eqb k' k0) eqn:E; cbn.
    + apply String.eqb_eq in E. subst k0.
      destruct (String.eqb k k'); cbn; [reflexivity|]. now rewrite orb_false_r.
    + rewrite IH. now rewrite orb_assoc.
Qed.

Lemma has_own_assign k target source :
  JsRecord.has_own k (JsRecord.assign target source)
  = JsRecord.has_own k target || JsRecord.has_own k source.
Proof.
  unfold JsRecord.assign. revert target.
  induction source as [|[k0 v0] source IH]; intros target.
  - cbn. now rewrite orb_false_r.
  - change (fold_left _ ((k0, v0) :: source) target)
      with (fold_left (fun acc kv => JsRecord.set (fst kv) (snd kv) acc) source
              (JsRecord.set k0 v0 target)).
    rewrite IH, has_own_set.
    change (JsRecord.has_own k ((k0, v0) :: source))
      with (String.eqb k k0 || JsRecord.has_own k source).
    now rewrite orb_assoc.
Qed.

Lemma has_own_keys k o : JsRecord.has_own k o = true <-> k ∈ JsRecord.keys o.
Proof.
  unfold JsRecord.has_own. rewrite existsb_exists. split.
  - intros (x & Hin & Heq). apply String.eqb_eq in Heq. subst x. now apply list_elem_of_In.
  - intros Hin. exists k. split; [now apply list_elem_of_In|apply String.eqb_refl].
Qed.

Lemma has_assign_l k target source :
  JsRecord.has k target = true -> JsRecord.has k (JsRecord.assign target source) = true.
Proof.
  unfold JsRecord.has. rewrite has_own_assign.
  destruct (JsRecord.has_own k target), (JsRecord.has_own k source); cbn; auto.
Qed.

Lemma has_assign_r k target source :
  k ∈ JsRecord.keys source -> JsRecord.has k (JsRecord.assign target source) = true.
Proof.
  intros Hk. apply has_own_keys in Hk. unfold JsRecord.has. rewrite has_own_assign, Hk.
  now rewrite orb_true_r.
Qed.

Lemma assign_nil target : JsRecord.assign target [] = target.
Proof. reflexivity. Qed.
End Records.

Lemma set_of_list_nodup seen l x :
  NoDup l -> (forall y, y ∈ seen -> y ∉ l) ->
  Js.set_of_list seen (l ++ [x]) = l ++ (if bool_decide (x ∈ seen ++ l) then [] else [x]).
Proof.
  revert seen. induction l as [|a l IH]; intros seen Hnd Hdis; simpl.
  - rewrite app_nil_r. destruct (bool_decide (x ∈ seen)); reflexivity.
  - apply NoDup_cons in Hnd as [Ha Hnd].
    rewrite bool_decide_eq_false_2.
    2:{ intros Hin. apply (Hdis a Hin). left. }
    f_equal. rewrite IH; auto.
    + f_equal. apply (f_equal (fun b : bool => if b then [] else [x])).
      apply bool_decide_ext. rewrite !elem_of_app, !elem_of_cons. tauto.
    + intros y Hy Hyl. apply elem_of_cons in Hy as [->|Hy]; [tauto|].
      apply (Hdis y Hy). right. exact Hyl.
Qed.

Lemma set_of_list_elem seen l x :
  x ∈ Js.set_of_list seen l <-> x ∈ l /\ x ∉ seen.
Proof.
  revert seen. induction l as [|a l IH]; intros seen; simpl.
  - rewrite elem_of_nil. tauto.
  - case_bool_decide as Ha.
    + rewrite IH, elem_of_cons. split; [tauto|]. intros [[->|?] ?]; tauto.
    + rewrite elem_of_cons, IH, !elem_of_cons. split.
      * intros [->|[? ?]]; [tauto|]. split; [tauto|]. tauto.
      * intros [[->|?] ?]; [tauto|]. destruct (decide (x = a)); [tauto|]. right. tauto.
Qed.


Lemma set_add_elem l x : x ∈ Js.set_add l x.
Proof.
  apply set_of_list_elem. split; [apply elem_of_app; right; left | apply not_elem_of_nil].
Qed.

Lemma set_add_not_nil l x : Js.set_add l x <> [].
Proof. intros E. pose proof (set_add_elem l x) as Hin. rewrite E in Hin. inversion Hin. Qed.


(** ** Facts about the mode manager *)

Section ManagerFacts.
Context `{Ext : Externals} `{!TrackMethods} `{!RecipeOps}.

Lemma handleSelectTrack_merging_eq (s : State) (id : TrackId) (edit : bool) :
mergeList s <> [] ->
handleSelectTrack (Some id) edit s =
Ok tt (set_editingTrack false (set_selectedTrackId (Some id)
        (set_mergeList (Js.set_add (mergeList s) id) (after_creating_check (Some id) edit s)))).
Proof.
intros Hm.
unfold handleSelectTrack, after_creating_check, bind, get, ret, modify, selectTrack.
destruct (negb _); cbn; unfold mergeInProgress; cbn.
all: destruct (mergeList s) as [|c l] eqn:El; [congruence|]; cbn.
all: destruct (Js.set_add (c :: l) id) eqn:Es; [apply set_add_not_nil in Es; contradiction|].
all: cbn; rewrite andb_false_r; reflexivity.
Qed.

Lemma after_creating_check_frame (trackId : option TrackId) (edit : bool) (s : State) :
let s1 := after_creating_check trackId edit s in
store s1 = store s /\ selectedTrackId s1 = selectedTrackId s
/\ editingTrack s1 = editingTrack s /\ mergeList s1 = mergeList s
/\ linkingState s1 = linkingState s /\ linkingTrack s1 = linkingTrack s
/\ linkingCamera s1 = linkingCamera s /\ events s1 = events s
/\ selectedCamera s1 = selectedCamera s.
Proof. unfold after_creating_check. destruct (negb _); cbn; auto 10. Qed.

(** C2, as the code has it: selecting a track while a merge is pending adds
    its id to the merge candidates (at the end, unless it is already one),
    and then the selection still moves to that track, with editing off; the
    call does not return early.  Linking state and store are untouched. *)
Theorem handleSelectTrack_while_merging (s : State) (id : TrackId) (edit : bool) :
mergeList s <> [] ->
exists s' : State,
  handleSelectTrack (Some id) edit s = Ok tt s'
  /\ mergeList s' = Js.set_add (mergeList s) id
  /\ id ∈ mergeList s'
  /\ (NoDup (mergeList s) ->
      mergeList s' = mergeList s ++ (if bool_decide (id ∈ mergeList s) then [] else [id]))
  /\ selectedTrackId s' = Some id
  /\ editingTrack s' = false
  /\ linkingState s' = linkingState s
  /\ linkingTrack s' = linkingTrack s
  /\ store s' = store s.
Proof.
intros Hm. eexists. split; [apply handleSelectTrack_merging_eq; exact Hm|].
destruct (after_creating_check_frame (Some id) edit s) as (Hst & _ & _ & Hml & Hls & Hlt & _).
cbn. rewrite Hst, Hls, Hlt.
repeat split; try reflexivity.
- apply set_add_elem.
- intros Hnd. unfold Js.set_add. rewrite set_of_list_nodup; auto.
  intros y Hy. inversion Hy.
Qed.

Lemma handleSelectTrack_linking_eq (s : State) (id : TrackId) (edit : bool) :
mergeList s = [] -> linkingState s = true ->
handleSelectTrack (Some id) edit s =
let s1 := after_creating_check (Some id) edit s in
Ok tt (if (1 <? length (TrackStore.getTrackAll (camMap s) id))%nat
       then set_events (events s1 ++ [EvPrompt "Linking Error"
                                        (linking_error_text id (linkingCamera s1)) false]) s1
       else set_linkingTrack (Some id) s1).
Proof.
intros Hm Hl.
unfold handleSelectTrack, after_creating_check, bind, get, ret, modify, selectTrack,
  async_call, _setLinkingTrack, emit, modify, camMap.
destruct (negb _); cbn; unfold mergeInProgress; cbn; rewrite Hm, Hl; cbn.
all: destruct (length _) as [|[|n]]; reflexivity.
Qed.

(** C6, as the code has it: while linking is active and no merge is
    pending, a selected id becomes the link target exactly when at most one
    camera holds a track with that id; when more than one camera holds it,
    the blocking 'Linking Error' prompt is opened and the link target stays
    as it was.  The selection is not changed either way. *)
Theorem handleSelectTrack_while_linking (s : State) (id : TrackId) (edit : bool) :
linkingState s = true ->
mergeList s = [] ->
exists s' : State,
  handleSelectTrack (Some id) edit s = Ok tt s'
  /\ selectedTrackId s' = selectedTrackId s
  /\ editingTrack s' = editingTrack s
  /\ ((length (TrackStore.getTrackAll (camMap s) id) <= 1)%nat ->
      linkingTrack s' = Some id /\ events s' = events s)
  /\ ((1 < length (TrackStore.getTrackAll (camMap s) id))%nat ->
      linkingTrack s' = linkingTrack s
      /\ events s' = events s ++ [EvPrompt "Linking Error"
                                    (linking_error_text id (linkingCamera s)) false]).
Proof.
intros Hl Hm. eexists. split; [apply handleSelectTrack_linking_eq; assumption|].
destruct (after_creating_check_frame (Some id) edit s)
  as (Hst & Hsel & Hed & Hml & Hls & Hlt & Hlc & Hev & _).
cbn zeta.
destruct (Nat.ltb 1 _) eqn:E; cbn; rewrite ?Hsel, ?Hed, ?Hlt, ?Hev, ?Hlc.
- apply Nat.ltb_lt in E. repeat split; try reflexivity; intros; lia.
- apply Nat.ltb_ge in E. repeat split; try reflexivity; intros; lia.
Qed.


Lemma no_feature_iff {A} `{Hdec : forall x : option A, Decision (x <> None)} (l : list (option A)) :
(length (filter (fun item => item <> None) l) =? 0)%nat = true
<-> forall f, Some f ∉ l.
Proof.
rewrite Nat.eqb_eq. induction l as [|x l IH].
- cbn. split; [intros _ f Hf; inversion Hf|reflexivity].
- rewrite filter_cons. destruct (decide (x <> None)) as [Hx|Hx].
  + cbn. split; [discriminate|]. intros Hall. destruct x as [f|]; [|congruence].
    exfalso. apply (Hall f). left.
  + assert (x = None) as -> by (destruct x; [exfalso; apply Hx; discriminate|reflexivity]).
    rewrite IH. split.
    * intros Hall f Hf. apply elem_of_cons in Hf as [Hf|Hf]; [discriminate|]. exact (Hall f Hf).
    * intros Hall f Hf. apply (Hall f). right. exact Hf.
Qed.

Lemma handleEscapeMode_eq (s : State) :
handleEscapeMode s =
match selectedTrackId s with
| Some id =>
    match TrackStore.lookup_track (camMap s) id (selectedCamera s) with
    | Some track =>
        if Z.eqb (begin track) (end_ track)
           && (length (filter (fun item => item <> None) (getFeature track (begin track))) =? 0)%nat
        then
          match TrackStore.removeTrack id true (selectedCamera s) (store s) with
          | inr st => Ok tt (escape_cleared (set_store st s))
          | inl e => Throw e s
          end
        else Ok tt (escape_cleared s)
    | None => Ok tt (escape_cleared s)
    end
| None => Ok tt (escape_cleared s)
end.
Proof.
assert (Htail : forall s1 : State,
  bind (modify (set_linkingState false)) (fun _ =>
    bind (modify (set_linkingCamera "")) (fun _ =>
      bind (modify (set_linkingTrack None)) (fun _ =>
        bind (modify (set_mergeList [])) (fun _ => handleSelectTrack None false)))) s1
  = Ok tt (escape_cleared s1)).
{ intros s1. unfold handleSelectTrack, bind, get, modify, ret, selectTrack. cbn.
  rewrite andb_false_r. reflexivity. }
unfold handleEscapeMode. unfold bind at 1 2. unfold get at 1.
destruct (selectedTrackId s) as [id|]; [|apply Htail].
unfold TrackStore.getPossibleTrack.
destruct (TrackStore.lookup_track _ _ _) as [track|]; [|apply Htail].
destruct (Z.eqb _ _); [|apply Htail]. cbn [andb].
destruct (Nat.eqb _ _); [|apply Htail].
unfold removeTrack, lift. unfold bind at 1 2 3, get at 1. unfold camMap.
destruct (TrackStore.removeTrack _ _ _ _); [reflexivity|].
unfold modify at 1. apply Htail.
Qed.

(** C3: [handleEscapeMode] always clears the merge list, the linking state
  and the selection.  When the selected track on the current camera is
  empty (it spans a single frame at which [getFeature] yields no feature)
  the track is removed from that camera and no other track is touched;
  when it spans several frames or has a feature at its frame, and when
  nothing is selected on the current camera, the store is left as it
  was. *)
Theorem handleEscapeMode_spec (s : State) :
exists s' : State,
  handleEscapeMode s = Ok tt s'
  /\ mergeList s' = [] /\ linkingState s' = false /\ linkingTrack s' = None
  /\ linkingCamera s' = "" /\ selectedTrackId s' = None /\ editingTrack s' = false
  /\ (forall id t,
        selectedTrackId s = Some id ->
        TrackStore.lookup_track (camMap s) id (selectedCamera s) = Some t ->
        (empty_track t ->
           TrackStore.lookup_track (camMap s') id (selectedCamera s) = None
           /\ forall i c, i <> id ->
                TrackStore.lookup_track (camMap s') i c = TrackStore.lookup_track (camMap s) i c)
        /\ (begin t <> end_ t \/ (exists f, Some f ∈ getFeature t (begin t)) ->
            store s' = store s))
  /\ (selected_track s = None -> store s' = store s).
Proof.
rewrite handleEscapeMode_eq. unfold selected_track.
destruct (selectedTrackId s) as [id|] eqn:Esel; cbn.
2:{ eexists. split; [reflexivity|]. cbn. do 6 (split; [reflexivity|]).
    split; [intros ? ? [=]|intros _; reflexivity]. }
destruct (TrackStore.lookup_track _ _ _) as [track|] eqn:Et.
2:{ eexists. split; [reflexivity|]. cbn. do 6 (split; [reflexivity|]).
    split; [intros ? ? [= <-] Hl; congruence|intros _; reflexivity]. }
destruct (Z.eqb _ _ && _) eqn:Eempty.
- apply andb_true_iff in Eempty as [Hbe Hnf].
  apply Z.eqb_eq in Hbe. pose proof (proj1 (no_feature_iff _) Hnf) as Hnone.
  destruct (removeTrack_present id true (selectedCamera s) (selectedCamera s) (store s) track Et)
    as [st' Hst]; [tauto|].
  rewrite Hst. eexists. split; [reflexivity|]. cbn.
  do 6 (split; [reflexivity|]). split; [|discriminate].
  intros id' t' [= <-] Hl. assert (t' = track) as -> by congruence. split; [intros _; split|].
  + unfold camMap; cbn. rewrite (removeTrack_lookup _ _ _ _ _ Hst).
    rewrite decide_True by tauto. reflexivity.
  + intros i c Hi. unfold camMap; cbn. rewrite (removeTrack_lookup _ _ _ _ _ Hst).
    rewrite decide_False by tauto. reflexivity.
  + intros [Hne|[f Hf]]; [contradiction|]. exfalso. exact (Hnone f Hf).
- eexists. split; [reflexivity|]. cbn.
  do 6 (split; [reflexivity|]). split; [|intros _; reflexivity].
  intros id' t' [= <-] Hl. assert (t' = track) as -> by congruence.
  split; [|intros _; reflexivity].
  intros [Hbe Hnf]. apply Z.eqb_eq in Hbe.
  pose proof (proj2 (no_feature_iff _) Hnf) as Hnone.
  rewrite Hbe in Eempty. rewrite Hnone in Eempty. discriminate.
Qed.

(** *** Geometry updates *)

Lemma collect_changes_kind name changes update e :
  collect_changes name changes update = inl e -> kind e = Conflict.
Proof.
  unfold collect_changes. destruct (find _ _); [intros [= <-]; reflexivity|].
  cbn. destruct (Js.truthy (newType changes)); cbn.
  - destruct (Js.truthy (u_newType update)); [intros [= <-]; reflexivity|].
    destruct (Js.truthy_string (newSelectedKey changes)); cbn; [|discriminate].
    destruct (Js.truthy_string (u_newSelectedKey update)); [intros [= <-]; reflexivity|discriminate].
  - destruct (Js.truthy_string (newSelectedKey changes)); cbn; [|discriminate].
    destruct (Js.truthy_string (u_newSelectedKey update)); [intros [= <-]; reflexivity|discriminate].
Qed.

Lemma collect_kind results update e :
  collect results update = inl e -> kind e = Conflict.
Proof.
  revert update. induction results as [|[name changes] rest IH]; intros update; cbn.
  - discriminate.
  - destruct (collect_changes name changes update) eqn:E.
    + intros [= <-]. eapply collect_changes_kind, E.
    + apply IH.
Qed.

Lemma clashes_throw name changes update :
  clashes update changes -> exists e, collect_changes name changes update = inl e.
Proof.
  intros Hc. unfold collect_changes.
  destruct (find _ _) eqn:Ef; [eauto|].
  destruct Hc as [(k & Hk & Hhas)|[[Ht Hu]|[Ht Hu]]].
  - exfalso. apply list_elem_of_In in Hk.
    eapply find_none in Ef; [|exact Hk]. cbn in Ef. congruence.
  - cbn. rewrite Ht, Hu. eauto.
  - cbn. destruct (Js.truthy (newType changes)); cbn.
    + destruct (Js.truthy (u_newType update)); [eauto|]. cbn. rewrite Ht, Hu. eauto.
    + rewrite Ht, Hu. eauto.
Qed.

(** What a successful turn leaves in the collector. *)
Lemma collect_changes_inr name changes update update' :
  collect_changes name changes update = inr update' ->
  geoJsonFeatureRecord update'
    = JsRecord.assign (geoJsonFeatureRecord update) (data changes)
  /\ u_union update' = u_union update ++ union changes
  /\ u_unionWithoutBounds update' = u_unionWithoutBounds update ++ unionWithoutBounds changes
  /\ u_done update' = u_done update ++ [done changes]
  /\ u_newType update'
     = (if Js.truthy (newType changes) then newType changes else u_newType update)
  /\ u_newSelectedKey update'
     = (if Js.truthy_string (newSelectedKey changes) then newSelectedKey changes
        else u_newSelectedKey update).
Proof.
  unfold collect_changes. destruct (find _ _); [discriminate|]. cbn.
  destruct (Js.truthy (newType changes)); cbn.
  - destruct (Js.truthy (u_newType update)); [discriminate|]. cbn.
    destruct (Js.truthy_string (newSelectedKey changes)); cbn.
    + destruct (Js.truthy_string (u_newSelectedKey update)); [discriminate|].
      intros [= <-]. cbn. auto 10.
    + intros [= <-]. cbn. auto 10.
  - destruct (Js.truthy_string (newSelectedKey changes)); cbn.
    + destruct (Js.truthy_string (u_newSelectedKey update)); [discriminate|].
      intros [= <-]. cbn. auto 10.
    + intros [= <-]. cbn. auto 10.
Qed.

Lemma clashes_mono name changes update update' later :
  collect_changes name changes update = inr update' ->
  clashes update later \/ conflicting changes later ->
  clashes update' later.
Proof.
  intros Hok. apply collect_changes_inr in Hok as (Hrec & _ & _ & _ & Hty & Hkey).
  unfold clashes, conflicting. rewrite Hrec, Hty, Hkey.
  intros [[(k & Hk & Hhas)|[[Ht Hu]|[Ht Hu]]]|[(k & Hk1 & Hk2)|[[Ht1 Ht2]|[Hk1 Hk2]]]].
  - left. exists k. split; [exact Hk|]. now apply has_assign_l.
  - right; left. split; [exact Ht|]. destruct (Js.truthy (newType changes)) eqn:E; assumption.
  - right; right. split; [exact Ht|].
    destruct (Js.truthy_string (newSelectedKey changes)) eqn:E; assumption.
  - left. exists k. split; [exact Hk2|]. now apply has_assign_r.
  - right; left. rewrite Ht1. tauto.
  - right; right. rewrite Hk1. tauto.
Qed.

Lemma collect_clash_later before name changes after update :
  clashes update changes ->
  exists e, collect (before ++ (name, changes) :: after) update = inl e.
Proof.
  revert update. induction before as [|[n0 c0] before IH]; intros update Hc; cbn.
  - destruct (clashes_throw name changes update Hc) as [e ->]. eauto.
  - destruct (collect_changes n0 c0 update) eqn:E; [eauto|].
    apply IH. eapply clashes_mono; [exact E|]. left. exact Hc.
Qed.

Lemma collect_conflict before n1 c1 between n2 c2 after update :
  conflicting c1 c2 ->
  exists e, collect (before ++ (n1, c1) :: between ++ (n2, c2) :: after) update = inl e.
Proof.
  intros Hc. revert update.
  induction before as [|[n0 c0] before IH]; intros update; cbn.
  - destruct (collect_changes n1 c1 update) eqn:E; [eauto|].
    apply collect_clash_later. eapply clashes_mono; [exact E|]. right. exact Hc.
  - destruct (collect_changes n0 c0 update) eqn:E; [eauto|]. apply IH.
Qed.

(** Results that draw nothing leave the drawable part of the collector
    empty. *)
Lemma collect_nothing results update update' :
  Forall (fun nc : string * RecipeResult =>
            data (snd nc) = [] /\ union (snd nc) = [] /\ unionWithoutBounds (snd nc) = [])
         results ->
  collect results update = inr update' ->
  geoJsonFeatureRecord update' = geoJsonFeatureRecord update
  /\ u_union update' = u_union update
  /\ u_unionWithoutBounds update' = u_unionWithoutBounds update.
Proof.
  intros Hall. revert update.
  induction Hall as [|[name changes] rest (Hd & Hu & Hw) _ IH]; intros update; cbn.
  - intros [= <-]. auto.
  - destruct (collect_changes name changes update) as [|u1] eqn:E; [discriminate|].
    intros Hrest. apply IH in Hrest as (-> & -> & ->).
    apply collect_changes_inr in E as (-> & -> & -> & _).
    cbn in Hd, Hu, Hw. rewrite Hd, Hu, Hw, !app_nil_r. auto.
Qed.
Lemma newTrackSettingsAfterLogic_frame (t : Track) (s : State) :
  let s' := final (newTrackSettingsAfterLogic t s) in
  editing s' = editing s /\ selectedKey s' = selectedKey s
  /\ recipes s' = recipes s /\ events s' = events s.
Proof.
  unfold newTrackSettingsAfterLogic, bind, get, ret, modify, _nudgeEditingCanary.
  destruct (creating s); [|cbn; auto].
  destruct (nts_mode (trackSettings s)).
  - destruct (nts_autoAdvanceFrame (trackSettings s)); cbn; auto.
  - destruct (nts_continuous (trackSettings s)); [|cbn; auto].
    unfold handleAddTrackOrDetection, addTrack, bind, get, ret, modify, lift, throw, selectTrack.
    cbn. destruct (TrackStore.addTrack _ _ _ _ _ _) as [e|[t' st']]; cbn; auto.
Qed.

(** C1: a geometry update on a selected track that the current camera
    holds throws a [Conflict] and changes nothing, the track's features
    included, whenever two of the recipes write a common key into [data],
    or both set [newType], or both set [newSelectedKey] (set: return a
    truthy value, which is what the loop tests). *)
Theorem handleUpdateGeoJSON_conflict (s : State) (id : TrackId) (track : Track)
    (eventType : EventType) (frameNum flickNum : Z) (data_ : SupportedFeature)
    (key : option string) (preventInterrupt : bool)
    (before between after : list Recipe) (r1 r2 : Recipe) :
  selectedTrackId s = Some id ->
  TrackStore.lookup_track (camMap s) id (selectedCamera s) = Some track ->
  recipes s = before ++ r1 :: between ++ r2 :: after ->
  conflicting (recipe_update r1 eventType frameNum track [data_] key)
              (recipe_update r2 eventType frameNum track [data_] key) ->
  exists e,
    handleUpdateGeoJSON eventType frameNum flickNum data_ key preventInterrupt s = Throw e s
    /\ kind e = Conflict.
Proof.
  intros Hsel Htrack Hrs Hc.
  unfold handleUpdateGeoJSON. unfold bind at 1, get at 1.
  rewrite Hsel. unfold TrackStore.getPossibleTrack. rewrite Htrack.
  destruct (canInterpolate track frameNum) as [features interpolate].
  unfold bind at 1, lift.
  rewrite Hrs, map_app. cbn [map]. rewrite map_app. cbn [map].
  match goal with |- context [collect ?rs emptyUpdate] =>
    destruct (collect rs emptyUpdate) as [e|u] eqn:E end.
  - exists e. split; [reflexivity|]. eapply collect_kind, E.
  - exfalso.
    edestruct (collect_conflict) as [e He]; [exact Hc|].
    rewrite E in He. discriminate.
Qed.


Lemma handleUpdateGeoJSON_run (s : State) (id : TrackId) (track : Track)
    (eventType : EventType) (frameNum flickNum : Z) (data_ : SupportedFeature)
    (key : option string) (preventInterrupt : bool) :
  selectedTrackId s = Some id ->
  TrackStore.lookup_track (camMap s) id (selectedCamera s) = Some track ->
  handleUpdateGeoJSON eventType frameNum flickNum data_ key preventInterrupt s =
  match collect (recipe_results s eventType frameNum track data_ key) emptyUpdate with
  | inl e => Throw e s
  | inr update =>
      apply_update eventType frameNum flickNum preventInterrupt id track update s
  end.
Proof.
  intros Hsel Htrack.
  unfold handleUpdateGeoJSON, apply_update, recipe_results. unfold bind at 1, get at 1.
  rewrite Hsel. unfold TrackStore.getPossibleTrack. rewrite Htrack.
  destruct (canInterpolate track frameNum) as [features interpolate].
  unfold bind at 1, lift.
  destruct (collect _ emptyUpdate) as [e|u]; reflexivity.
Qed.

(** C10: when every recipe returns empty [data], [union] and
    [unionWithoutBounds], a geometry update on a selected track that the
    current camera holds writes no feature and does not run the
    post-add-advance logic, whatever the event type: the store, the
    [creating] flag, the editing canary, the media controller, the
    selection and the trace of outside effects are as before, for every
    implementation of [Track.setFeature]. *)
Theorem handleUpdateGeoJSON_nothing_drawn (s : State) (id : TrackId) (track : Track)
    (eventType : EventType) (frameNum flickNum : Z) (data_ : SupportedFeature)
    (key : option string) (preventInterrupt : bool) :
  selectedTrackId s = Some id ->
  TrackStore.lookup_track (camMap s) id (selectedCamera s) = Some track ->
  (forall recipe, recipe ∈ recipes s ->
     let changes := recipe_update recipe eventType frameNum track [data_] key in
     data changes = [] /\ union changes = [] /\ unionWithoutBounds changes = []) ->
  let s' := final (handleUpdateGeoJSON eventType frameNum flickNum data_ key preventInterrupt s) in
  store s' = store s
  /\ creating s' = creating s
  /\ editingCanary s' = editingCanary s
  /\ aggregateController s' = aggregateController s
  /\ selectedTrackId s' = selectedTrackId s
  /\ editingTrack s' = editingTrack s
  /\ events s' = events s.
Proof.
  intros Hsel Htrack Hall.
  rewrite (handleUpdateGeoJSON_run s id track) by assumption.
  destruct (collect _ emptyUpdate) as [e|u] eqn:E; [cbn; auto 10|].
  apply collect_nothing in E as (Hrec & Hu & Hw).
  2:{ apply Forall_forall. intros [name changes] Hin.
      unfold recipe_results in Hin. apply list_elem_of_In in Hin.
      apply in_map_iff in Hin as (recipe & [= <- <-] & Hr).
      apply list_elem_of_In in Hr. exact (Hall recipe Hr). }
  assert (Hsc : somethingChanged u = false).
  { unfold somethingChanged. rewrite Hrec, Hu, Hw. reflexivity. }
  unfold apply_update. destruct (canInterpolate track frameNum) as [features interpolate].
  rewrite Hsc. cbn [andb].
  unfold bind, modify, ret.
  destruct (Js.truthy_string (u_newSelectedKey u)); destruct (u_newType u); cbn; auto 10.
Qed.

Lemma collect_sources results update0 update :
  collect results update0 = inr update ->
  (u_newType update = u_newType update0
   \/ exists nc, nc ∈ results /\ Js.truthy (newType (snd nc)) = true
                 /\ u_newType update = newType (snd nc))
  /\ (u_newSelectedKey update = u_newSelectedKey update0
      \/ exists nc, nc ∈ results /\ Js.truthy_string (newSelectedKey (snd nc)) = true
                    /\ u_newSelectedKey update = newSelectedKey (snd nc)).
Proof.
  revert update0. induction results as [|[name changes] rest IH]; intros update0; cbn.
  - intros [= <-]. auto.
  - destruct (collect_changes name changes update0) as [|u1] eqn:E; [discriminate|].
    intros Hrest. apply IH in Hrest as [Hty Hkey].
    apply collect_changes_inr in E as (_ & _ & _ & _ & Hty1 & Hkey1). split.
    + destruct Hty as [Hty|(nc & Hin & Ht & Hty)].
      * rewrite Hty, Hty1. destruct (Js.truthy (newType changes)) eqn:Et; [|auto].
        right. exists (name, changes). split; [left|auto].
      * right. exists nc. split; [now right|auto].
    + destruct Hkey as [Hkey|(nc & Hin & Ht & Hkey)].
      * rewrite Hkey, Hkey1. destruct (Js.truthy_string (newSelectedKey changes)) eqn:Et; [|auto].
        right. exists (name, changes). split; [left|auto].
      * right. exists nc. split; [now right|auto].
Qed.

Lemma collect_changes_keeps name changes update update' :
  collect_changes name changes update = inr update' ->
  (Js.truthy (u_newType update) = true -> u_newType update' = u_newType update)
  /\ (Js.truthy_string (u_newSelectedKey update) = true ->
      u_newSelectedKey update' = u_newSelectedKey update).
Proof.
  unfold collect_changes. destruct (find _ _); [discriminate|]. cbn.
  destruct (Js.truthy (newType changes)); cbn.
  - destruct (Js.truthy (u_newType update)); [discriminate|]. cbn.
    destruct (Js.truthy_string (newSelectedKey changes)); cbn.
    + destruct (Js.truthy_string (u_newSelectedKey update)); [discriminate|].
      intros [= <-]. cbn. split; discriminate.
    + intros [= <-]. cbn. split; [discriminate|reflexivity].
  - destruct (Js.truthy_string (newSelectedKey changes)); cbn.
    + destruct (Js.truthy_string (u_newSelectedKey update)); [discriminate|].
      intros [= <-]. cbn. split; [reflexivity|discriminate].
    + intros [= <-]. cbn. split; reflexivity.
Qed.

(** Once the collector holds a type or a selected key, the loop can only
    end with that value. *)
Lemma collect_keeps results update0 update :
  collect results update0 = inr update ->
  (Js.truthy (u_newType update0) = true -> u_newType update = u_newType update0)
  /\ (Js.truthy_string (u_newSelectedKey update0) = true ->
      u_newSelectedKey update = u_newSelectedKey update0).
Proof.
  revert update0. induction results as [|[name changes] rest IH]; intros update0; cbn.
  - intros [= <-]. split; reflexivity.
  - destruct (collect_changes name changes update0) as [|u1] eqn:E; [discriminate|].
    intros Hrest. apply IH in Hrest as [Hty Hkey].
    apply collect_changes_keeps in E as [Hty1 Hkey1]. split.
    + intros Ht. rewrite <- (Hty1 Ht). apply Hty. rewrite (Hty1 Ht). exact Ht.
    + intros Ht. rewrite <- (Hkey1 Ht). apply Hkey. rewrite (Hkey1 Ht). exact Ht.
Qed.

(** What a recipe sets is what the loop ends with. *)
Lemma collect_reaches results update0 update nc :
  collect results update0 = inr update ->
  nc ∈ results ->
  (Js.truthy (newType (snd nc)) = true -> u_newType update = newType (snd nc))
  /\ (Js.truthy_string (newSelectedKey (snd nc)) = true ->
      u_newSelectedKey update = newSelectedKey (snd nc)).
Proof.
  revert update0. induction results as [|[name changes] rest IH]; intros update0 Hcol Hin;
    [inversion Hin|].
  cbn in Hcol. destruct (collect_changes name changes update0) as [|u1] eqn:E; [discriminate|].
  apply elem_of_cons in Hin as [->|Hin]; [|exact (IH _ Hcol Hin)].
  cbn [snd]. apply collect_changes_inr in E as (_ & _ & _ & _ & Hty & Hkey).
  apply collect_keeps in Hcol as [Hty' Hkey']. split.
  - intros Ht. rewrite Ht in Hty. rewrite <- Hty. apply Hty'. rewrite Hty. exact Ht.
  - intros Ht. rewrite Ht in Hkey. rewrite <- Hkey. apply Hkey'. rewrite Hkey. exact Ht.
Qed.

(** C5, as the code has it: in a geometry update to which some recipe
    contributed a change, if no recipe set [newType] or [newSelectedKey] and
    the caller supplied [preventInterrupt], the callback is called and the
    editing type, the selected key and the recipes stay as they were.
    Otherwise the callback is not called, the selected key and the editing
    type take the values a recipe supplied (each stays when no recipe
    supplied one), and when a recipe supplied [newType] every recipe is
    deactivated, the one that changed the type included.  The collected
    [update] holds a type or a key exactly when a recipe supplied it: what
    it holds comes from a recipe, and what a recipe supplies is what it
    holds. *)
Theorem handleUpdateGeoJSON_mode_switch (s : State) (id : TrackId) (track : Track)
    (eventType : EventType) (frameNum flickNum : Z) (data_ : SupportedFeature)
    (key : option string) (preventInterrupt : bool) (update : Update) :
  selectedTrackId s = Some id ->
  TrackStore.lookup_track (camMap s) id (selectedCamera s) = Some track ->
  collect (recipe_results s eventType frameNum track data_ key) emptyUpdate = inr update ->
  somethingChanged update = true ->
  (let s' := final (handleUpdateGeoJSON eventType frameNum flickNum data_ key preventInterrupt s) in
   if interrupt_prevented update preventInterrupt then
     events s' = events s ++ [EvPreventInterrupt]
     /\ editing s' = editing s
     /\ selectedKey s' = selectedKey s
     /\ recipes s' = recipes s
   else
     events s' = events s
     /\ selectedKey s'
        = (if Js.truthy_string (u_newSelectedKey update)
           then default "" (u_newSelectedKey update) else selectedKey s)
     /\ editing s' = default (editing s) (u_newType update)
     /\ recipes s'
        = (if Js.truthy (u_newType update)
           then map recipe_deactivate (recipes s) else recipes s))
  /\ (forall ty, u_newType update = Some ty ->
        exists recipe, recipe ∈ recipes s
          /\ newType (recipe_update recipe eventType frameNum track [data_] key) = Some ty)
  /\ (Js.truthy_string (u_newSelectedKey update) = true ->
        exists recipe, recipe ∈ recipes s
          /\ newSelectedKey (recipe_update recipe eventType frameNum track [data_] key)
             = u_newSelectedKey update)
  /\ (forall recipe, recipe ∈ recipes s ->
        (Js.truthy (newType (recipe_update recipe eventType frameNum track [data_] key)) = true ->
         u_newType update = newType (recipe_update recipe eventType frameNum track [data_] key))
        /\ (Js.truthy_string
              (newSelectedKey (recipe_update recipe eventType frameNum track [data_] key)) = true ->
            u_newSelectedKey update
            = newSelectedKey (recipe_update recipe eventType frameNum track [data_] key))).
Proof.
  intros Hsel Htrack Hcol Hsc. split.
  - rewrite (handleUpdateGeoJSON_run s id track) by assumption. rewrite Hcol.
    unfold apply_update. destruct (canInterpolate track frameNum) as [features interpolate].
    rewrite Hsc. cbn [andb]. unfold interrupt_prevented.
    set (written := setFeature _ _ track).
    set (after := if bool_decide (eventType = Editing) || forallb _ (u_done update)
                  then newTrackSettingsAfterLogic written else ret tt).
    assert (Hafter : forall s1 : State,
      editing (final (after s1)) = editing s1 /\ selectedKey (final (after s1)) = selectedKey s1
      /\ recipes (final (after s1)) = recipes s1 /\ events (final (after s1)) = events s1).
    { intros s1. unfold after. destruct (_ || _); [|cbn; auto].
      apply (newTrackSettingsAfterLogic_frame written s1). }
    clearbody after.
    destruct (Js.truthy_string (u_newSelectedKey update)) eqn:Ek;
      destruct (u_newType update) as [ty|] eqn:Et; cbn [negb andb Js.truthy default].
    4: destruct preventInterrupt.
    all: unfold bind, emit, modify, ret; cbv beta iota zeta.
    all: lazymatch goal with |- context [@final _ _ _ (?f ?s1)] =>
           destruct (Hafter s1) as (He & Hk & Hr & Hv)
         end.
    all: rewrite He, Hk, Hr, Hv; cbn; auto.
  - pose proof Hcol as Hreach.
    apply collect_sources in Hcol as [Hty Hkey]. cbn in Hty, Hkey. split; [|split].
    3:{ intros recipe Hr.
        pose proof (collect_reaches _ _ _
                      (recipe_name recipe,
                       recipe_update recipe eventType frameNum track [data_] key) Hreach) as Hthis.
        cbn [snd] in Hthis. apply Hthis. unfold recipe_results.
        apply list_elem_of_In, in_map_iff. exists recipe.
        split; [reflexivity|now apply list_elem_of_In]. }
    + intros ty Hu. destruct Hty as [Hty|(nc & Hin & _ & Hty)]; [congruence|].
      unfold recipe_results in Hin. apply list_elem_of_In, in_map_iff in Hin
        as (recipe & <- & Hr). apply list_elem_of_In in Hr.
      exists recipe. split; [exact Hr|]. cbn in Hty. congruence.
    + intros Hu. destruct Hkey as [Hkey|(nc & Hin & _ & Hkey)].
      { rewrite Hkey in Hu. discriminate. }
      unfold recipe_results in Hin. apply list_elem_of_In, in_map_iff in Hin
        as (recipe & <- & Hr). apply list_elem_of_In in Hr.
      exists recipe. split; [exact Hr|]. cbn in Hkey. congruence.
Qed.

(** *** Linking *)

Lemma handleStartLinking_no_selection (s : State) (camera : string) :
  selectedTrackId s = None ->
  exists e, handleStartLinking camera s = Throw e s /\ kind e = InvalidState.
Proof.
  intros Hsel. unfold handleStartLinking, bind, get. rewrite Hsel. cbn.
  rewrite andb_false_r. eexists. split; reflexivity.
Qed.

Lemma handleStartLinking_unknown_camera (s : State) (camera : string) :
  linkingState s = false -> selectedTrackId s <> None -> camMap s !! camera = None ->
  exists e, handleStartLinking camera s = Throw e (set_linkingState true s)
            /\ kind e = InvalidState.
Proof.
  intros Hl Hsel Hcam. unfold handleStartLinking, bind, get, modify, throw.
  rewrite Hl. destruct (selectedTrackId s); [|congruence]. cbn.
  rewrite bool_decide_eq_false_2; [eexists; split; reflexivity|].
  rewrite Hcam. intros [? [=]].
Qed.

Lemma handleStartLinking_known_camera (s : State) (camera : string) :
  linkingState s = false -> selectedTrackId s <> None -> is_Some (camMap s !! camera) ->
  handleStartLinking camera s = Ok tt (set_linkingCamera camera (set_linkingState true s)).
Proof.
  intros Hl Hsel Hcam. unfold handleStartLinking, bind, get, modify, throw.
  rewrite Hl. destruct (selectedTrackId s); [|congruence]. cbn.
  rewrite bool_decide_eq_true_2 by exact Hcam. reflexivity.
Qed.

(** *** Merging *)

Variable selectNextTrack : Z -> State -> option TrackId.

(** Removing a list of distinct tracks that the camera [cam] holds, from
    every camera. *)
Lemma forEach_removeTrack (ids : list TrackId) (cam : string) (s : State) :
  NoDup ids ->
  (forall id, id ∈ ids -> is_Some (TrackStore.lookup_track (camMap s) id cam)) ->
  exists st',
    forEach (fun trackId => removeTrack trackId false "") ids s = Ok tt (set_store st' s)
    /\ forall i c,
         TrackStore.lookup_track (TrackStore.camMap st') i c =
         if decide (i ∈ ids) then None else TrackStore.lookup_track (camMap s) i c.
Proof.
  revert s. induction ids as [|id ids IH]; intros s Hnd Hall.
  - exists (store s). split; [destruct s; reflexivity|].
    intros i c. rewrite decide_False by apply not_elem_of_nil. reflexivity.
  - apply NoDup_cons in Hnd as [Hid Hnd].
    destruct (Hall id) as [t Ht]; [left|].
    destruct (removeTrack_present id false cam "" (store s) t Ht) as [st1 Hst1]; [tauto|].
    pose proof (removeTrack_lookup _ _ _ _ _ Hst1) as Hl1.
    destruct (IH (set_store st1 s) Hnd) as (st' & Hrun & Hl').
    { intros j Hj. unfold camMap. cbn. rewrite Hl1.
      rewrite decide_False; [apply Hall; now right|]. intros [-> _]. contradiction. }
    exists st'. split.
    + cbn [forEach]. unfold bind at 1. unfold removeTrack at 1.
      unfold bind at 1, get at 1. unfold bind at 1, lift. rewrite Hst1.
      unfold ret at 1, modify at 1. rewrite Hrun. reflexivity.
    + intros i c. rewrite Hl'. unfold camMap. cbn. rewrite Hl1.
      destruct (decide (i ∈ ids)) as [Hin|Hin].
      * rewrite decide_True by now right. reflexivity.
      * destruct (decide (i = id)) as [->|Hne].
        -- rewrite decide_True by tauto. rewrite decide_True by left. reflexivity.
        -- rewrite decide_False by tauto. rewrite decide_False; [reflexivity|].
           intros Hc. apply elem_of_cons in Hc. tauto.
Qed.

Lemma mapM_getTrack (cm : gmap string (gmap Z Track)) (cam : string) (ids : list TrackId) :
  (forall id, id ∈ ids -> is_Some (TrackStore.lookup_track cm id cam)) ->
  exists ts,
    mapM (fun trackId => TrackStore.getTrack cm trackId cam) ids = inr ts
    /\ Forall2 (fun id t => TrackStore.lookup_track cm id cam = Some t) ids ts.
Proof.
  induction ids as [|id ids IH]; intros Hall.
  - exists []. split; [reflexivity|constructor].
  - destruct (Hall id) as [t Ht]; [left|].
    destruct IH as (ts & Hts & Hf2); [intros j Hj; apply Hall; now right|].
    exists (t :: ts). split; [|now constructor].
    cbn. unfold TrackStore.getTrack at 1. rewrite Ht, Hts. reflexivity.
Qed.

Lemma filter_not_in_tail (x : TrackId) (l : list TrackId)
    `{Hdec : forall y : TrackId, Decision (y ∉ l)} :
  NoDup (x :: l) -> filter (fun y : TrackId => y ∉ l) (x :: l) = [x].
Proof.
  intros Hnd. apply NoDup_cons in Hnd as [Hx _].
  rewrite filter_cons_True by exact Hx. f_equal.
  assert (Hgen : forall l0, (forall y, y ∈ l0 -> y ∈ l) -> filter (fun y => y ∉ l) l0 = []).
  { induction l0 as [|y l0 IH]; intros Hsub; [reflexivity|].
    rewrite filter_cons_False; [apply IH; intros z Hz; apply Hsub; now right|].
    intros Hy. apply Hy, Hsub. left. }
  apply Hgen. auto.
Qed.

Lemma handleSelectTrack_plain_eq (s : State) (trackId : option TrackId) (edit : bool) :
  mergeList s = [] -> linkingState s = false ->
  exists s1 : State,
    handleSelectTrack trackId edit s
    = Ok tt (set_editingTrack edit (set_selectedTrackId trackId s1))
    /\ store s1 = store s /\ mergeList s1 = [] /\ events s1 = events s.
Proof.
  intros Hm Hl.
  exists (if negb (creating s && edit && bool_decide (trackId = selectedTrackId s))
          then set_creating false s else s).
  unfold handleSelectTrack, bind, get, ret, modify, selectTrack.
  destruct (negb _); cbn; unfold mergeInProgress; cbn; rewrite Hm, Hl, andb_false_r; cbn;
    rewrite ?Hm; cbn; rewrite ?andb_true_r; auto.
Qed.

(** C4, as the code has it: with fewer than two merge candidates
    [handleCommitMerge] changes nothing.  With two or more distinct
    candidates that the current camera all holds, and linking not active,
    it merges the other candidates' tracks into the first candidate's
    track, removes the other candidates from every camera without opening
    a prompt, leaves all remaining tracks alone, empties the merge list and
    selects the surviving track with editing off. *)
Theorem handleCommitMerge_spec (s : State) :
  ((length (mergeList s) < 2)%nat -> handleCommitMerge selectNextTrack s = Ok tt s)
  /\ forall first second rest t0,
       mergeList s = first :: second :: rest ->
       NoDup (mergeList s) ->
       linkingState s = false ->
       TrackStore.lookup_track (camMap s) first (selectedCamera s) = Some t0 ->
       trackId t0 = first ->
       (forall id, id ∈ second :: rest ->
          is_Some (TrackStore.lookup_track (camMap s) id (selectedCamera s))) ->
       exists (s' : State) (others : list Track),
         handleCommitMerge selectNextTrack s = Ok tt s'
         /\ Forall2 (fun id t => TrackStore.lookup_track (camMap s) id (selectedCamera s) = Some t)
                    (second :: rest) others
         /\ TrackStore.lookup_track (camMap s') first (selectedCamera s)
            = Some (merge others t0)
         /\ (forall id c, id ∈ second :: rest -> TrackStore.lookup_track (camMap s') id c = None)
         /\ (forall i c, i ∉ mergeList s ->
               TrackStore.lookup_track (camMap s') i c = TrackStore.lookup_track (camMap s) i c)
         /\ mergeList s' = []
         /\ selectedTrackId s' = Some first
         /\ editingTrack s' = false
         /\ events s' = events s.
Proof.
  split.
  - intros Hlen. unfold handleCommitMerge, bind, get.
    destruct (mergeList s) as [|a [|b l]]; cbn in Hlen; [reflexivity|reflexivity|lia].
  - intros first second rest t0 Hml Hnd Hlink Ht0 Hid Hothers.
    rewrite Hml in Hnd.
    destruct (mapM_getTrack (camMap s) (selectedCamera s) (second :: rest) Hothers)
      as (others & Hmap & Hf2).
    set (merged := merge others t0).
    set (s1 := set_store (TrackStore.replaceTrack (selectedCamera s) first merged (store s)) s).
    assert (Hl1 : forall i c,
      TrackStore.lookup_track (camMap s1) i c =
      if decide (c = selectedCamera s /\ i = first) then Some merged
      else TrackStore.lookup_track (camMap s) i c).
    { intros i c. apply replaceTrack_lookup. exists t0. exact Ht0. }
    pose proof Hnd as Hnd'. apply NoDup_cons in Hnd' as [Hfirst Hndo].
    destruct (forEach_removeTrack (second :: rest) (selectedCamera s) s1 Hndo)
      as (st2 & Hrun & Hl2).
    { intros id Hin. rewrite Hl1. rewrite decide_False; [now apply Hothers|].
      intros [_ ->]. contradiction. }
    set (previousOrNext := match selectNextTrack 1 s1 with
                           | Some next => Some next
                           | None => selectNextTrack (-1) s1
                           end).
    set (s3 := set_editingTrack false (set_selectedTrackId previousOrNext
                 (set_mergeList [first] (set_store st2 s1)))).
    assert (Hremove : async_call (handleRemoveTrack selectNextTrack (second :: rest) true "" true) s1
                      = Ok tt s3).
    { unfold async_call, handleRemoveTrack. unfold bind at 1, get at 1.
      cbn [negb andb]. unfold bind at 1, ret at 1.
      unfold bind at 1. rewrite Hrun.
      unfold bind at 1, handleUnstageFromMerge, modify at 1.
      cbn [String.eqb]. unfold selectTrack, modify. unfold s3, s1. cbn.
      rewrite Hml. rewrite (filter_not_in_tail first (second :: rest) Hnd). reflexivity. }
    assert (Htoggle : exists l, handleToggleMerge s3 = Ok l (set_mergeList [] s3)).
    { unfold handleToggleMerge, bind, get, modify, ret, selectTrack, mergeInProgress. cbn.
      destruct previousOrNext; cbn; eauto. }
    destruct Htoggle as [l Htoggle].
    destruct (handleSelectTrack_plain_eq (set_mergeList [] s3) (Some (trackId merged)) false)
      as (s4 & Hsel & Hst4 & Hml4 & Hev4); [reflexivity|exact Hlink|].
    exists (set_editingTrack false (set_selectedTrackId (Some (trackId merged)) s4)), others.
    split.
    { unfold handleCommitMerge. unfold bind at 1, get at 1. rewrite Hml.
      unfold bind at 1, lift at 1, TrackStore.getTrack at 1. rewrite Ht0. unfold ret at 1.
      unfold bind at 1, lift at 1. rewrite Hmap. unfold ret at 1.
      unfold bind at 1, modify at 1. fold merged. fold s1.
      unfold bind at 1. rewrite Hremove.
      unfold bind at 1. rewrite Htoggle. exact Hsel. }
    split; [exact Hf2|].
    assert (Hcm : forall i c,
      TrackStore.lookup_track
        (camMap (set_editingTrack false (set_selectedTrackId (Some (trackId merged)) s4))) i c
      = TrackStore.lookup_track (TrackStore.camMap st2) i c).
    { intros i c. unfold camMap. cbn. rewrite Hst4. reflexivity. }
    split; [|split; [|split; [|split; [|split; [|split]]]]].
    + rewrite Hcm, Hl2, decide_False by exact Hfirst. rewrite Hl1, decide_True by tauto.
      reflexivity.
    + intros id c Hin. rewrite Hcm, Hl2, decide_True by exact Hin. reflexivity.
    + intros i c Hi. rewrite Hml in Hi. rewrite Hcm, Hl2.
      rewrite decide_False by (intros Hc; apply Hi; now right).
      rewrite Hl1, decide_False; [reflexivity|]. intros [_ ->]. apply Hi. left.
    + cbn. exact Hml4.
    + cbn. unfold merged. rewrite merge_trackId, Hid. reflexivity.
    + reflexivity.
    + cbn. rewrite Hev4. reflexivity.
Qed.
End ManagerFacts.

(** ** The handlers on concrete sessions *)

Section Scenarios.
Import Demo.
#[local] Existing Instances Demo.externals Demo.track_methods Demo.recipe_ops.

Lemma two_tracks_reachable : TrackStore.reachable two_tracks.
Proof.
  apply (TrackStore.reach_add (store_with [20] TrackStore.emptyStore) 10 "foo" None "singleCam"
           None track1 two_tracks); [|reflexivity].
  apply (TrackStore.reach_add TrackStore.emptyStore 20 "foo" None "singleCam" None track0
           (store_with [20] TrackStore.emptyStore)); [|reflexivity].
  apply TrackStore.reach_init; [reflexivity|].
  intros c m Hc. cbn in Hc. apply lookup_singleton_Some in Hc as [_ <-]. reflexivity.
Qed.

Lemma getTrack_witness :
  (exists e, TrackStore.getTrack (TrackStore.camMap TrackStore.emptyStore) 0 "singleCam" = inl e
             /\ kind e = NotFound
             /\ message e = "TrackId 0 not found in trackMap with cameraName singleCam"
             /\ occurs_in "0" (message e)
             /\ occurs_in "singleCam" (message e))
  /\ TrackStore.getTrack (TrackStore.camMap two_tracks) 0 "singleCam" = inr track0.
Proof.
  split.
  - apply (proj1 (getTrack_spec (TrackStore.camMap TrackStore.emptyStore) 0 "singleCam")).
    reflexivity.
  - apply (proj2 (getTrack_spec (TrackStore.camMap two_tracks) 0 "singleCam")).
    reflexivity.
Defined.

Lemma queryInterval_witness :
  1 ∈ TrackStore.queryInterval (10, 10) two_tracks
  <-> exists c t, TrackStore.lookup_track (TrackStore.camMap two_tracks) 1 c = Some t
                  /\ TrackStore.intersects (begin t) (end_ t) 10 10.
Proof.
  apply (queryInterval_exact two_tracks 10 10 1 two_tracks_reachable). lia.
Defined.

Lemma handleUpdateGeoJSON_conflict_witness :
  exists e,
    handleUpdateGeoJSON InProgress 20 0 "drawn" None false s_conflict = Throw e s_conflict
    /\ kind e = Conflict.
Proof.
  apply (handleUpdateGeoJSON_conflict s_conflict 0 track0 InProgress 20 0 "drawn" None false
           [] [] [] polygon_recipe line_recipe).
  - reflexivity.
  - reflexivity.
  - reflexivity.
  - right. left. split; reflexivity.
Defined.

Lemma handleUpdateGeoJSON_nothing_drawn_witness :
  let s' := final (handleUpdateGeoJSON Editing 20 0 "drawn" None true s_idle) in
  store s' = store s_idle
  /\ creating s' = creating s_idle
  /\ editingCanary s' = editingCanary s_idle
  /\ aggregateController s' = aggregateController s_idle
  /\ selectedTrackId s' = selectedTrackId s_idle
  /\ editingTrack s' = editingTrack s_idle
  /\ events s' = events s_idle.
Proof.
  apply (handleUpdateGeoJSON_nothing_drawn s_idle 0 track0 Editing 20 0 "drawn" None true).
  - reflexivity.
  - reflexivity.
  - intros recipe Hin. apply list_elem_of_singleton in Hin. subst recipe. cbn. auto.
Defined.

Lemma handleSelectTrack_while_merging_witness :
  exists s' : State,
    handleSelectTrack (Some 0) true s_merging = Ok tt s'
    /\ mergeList s' = Js.set_add (mergeList s_merging) 0
    /\ 0 ∈ mergeList s'
    /\ (NoDup (mergeList s_merging) ->
        mergeList s' = mergeList s_merging
                       ++ (if bool_decide (0 ∈ mergeList s_merging) then [] else [0]))
    /\ selectedTrackId s' = Some 0
    /\ editingTrack s' = false
    /\ linkingState s' = linkingState s_merging
    /\ linkingTrack s' = linkingTrack s_merging
    /\ store s' = store s_merging.
Proof.
  apply (handleSelectTrack_while_merging s_merging 0 true). discriminate.
Defined.

(** With track 1 selected and staged for merging, selecting track 0 moves
    the selection to track 0. *)
Lemma handleSelectTrack_while_merging_changes_selection :
  mergeInProgress s_merging = true
  /\ selectedTrackId s_merging = Some 1
  /\ handleSelectTrack (Some 0) false s_merging
     = Ok tt (set_selectedTrackId (Some 0) (set_mergeList [1; 0] s_merging))
  /\ selectedTrackId (final (handleSelectTrack (Some 0) false s_merging)) = Some 0.
Proof. repeat split. Qed.

Lemma handleSelectTrack_while_linking_witness :
  exists s' : State,
    handleSelectTrack (Some 1) false s_linking = Ok tt s'
    /\ selectedTrackId s' = selectedTrackId s_linking
    /\ editingTrack s' = editingTrack s_linking
    /\ ((length (TrackStore.getTrackAll (camMap s_linking) 1%Z) <= 1)%nat ->
        linkingTrack s' = Some 1 /\ events s' = events s_linking)
    /\ ((1 < length (TrackStore.getTrackAll (camMap s_linking) 1%Z))%nat ->
        linkingTrack s' = linkingTrack s_linking
        /\ events s' = events s_linking
                       ++ [EvPrompt "Linking Error"
                             (linking_error_text 1 (linkingCamera s_linking)) false]).
Proof.
  apply (handleSelectTrack_while_linking s_linking 1 false); reflexivity.
Defined.

(** While linking, an id that no camera holds becomes the link target. *)
Lemma handleSelectTrack_links_unknown_id :
  linkingState s_linking = true
  /\ mergeList s_linking = []
  /\ TrackStore.getTrackAll (camMap s_linking) 7 = []
  /\ linkingTrack s_linking = None
  /\ linkingTrack (final (handleSelectTrack (Some 7) false s_linking)) = Some 7.
Proof. repeat split. Qed.

Lemma handleCommitMerge_witness :
  exists (s' : State) (others : list Track),
    handleCommitMerge noNextTrack s_commit = Ok tt s'
    /\ Forall2 (fun id t => TrackStore.lookup_track (camMap s_commit) id (selectedCamera s_commit)
                            = Some t) [1] others
    /\ TrackStore.lookup_track (camMap s') 0 (selectedCamera s_commit)
       = Some (merge others track0)
    /\ (forall id c, id ∈ [1] -> TrackStore.lookup_track (camMap s') id c = None)
    /\ (forall i c, i ∉ mergeList s_commit ->
          TrackStore.lookup_track (camMap s') i c = TrackStore.lookup_track (camMap s_commit) i c)
    /\ mergeList s' = []
    /\ selectedTrackId s' = Some 0
    /\ editingTrack s' = false
    /\ events s' = events s_commit.
Proof.
  apply (proj2 (handleCommitMerge_spec noNextTrack s_commit) 0 1 [] track0).
  - reflexivity.
  - apply (bool_decide_unpack _). reflexivity.
  - reflexivity.
  - reflexivity.
  - reflexivity.
  - intros id Hin. apply list_elem_of_singleton in Hin. subst id. exists track1. reflexivity.
Defined.

(** With two candidates of which the current camera holds only the first,
    committing the merge throws and the merge list stays. *)
Lemma handleCommitMerge_other_camera_throws :
  mergeList s_commit_other_camera = [0; 1]
  /\ linkingState s_commit_other_camera = false
  /\ handleCommitMerge noNextTrack s_commit_other_camera
     = Throw (mkError NotFound "TrackId 1 not found in trackMap with cameraName left")
             s_commit_other_camera
  /\ mergeList (final (handleCommitMerge noNextTrack s_commit_other_camera)) = [0; 1].
Proof. repeat split. Qed.

Lemma handleUpdateGeoJSON_mode_switch_witness :
  (let s' := final (handleUpdateGeoJSON InProgress 20 0 "drawn" None true s_draw) in
   if interrupt_prevented drawn_update true then
     events s' = events s_draw ++ [EvPreventInterrupt]
     /\ editing s' = editing s_draw
     /\ selectedKey s' = selectedKey s_draw
     /\ recipes s' = recipes s_draw
   else
     events s' = events s_draw
     /\ selectedKey s'
        = (if Js.truthy_string (u_newSelectedKey drawn_update)
           then default "" (u_newSelectedKey drawn_update) else selectedKey s_draw)
     /\ editing s' = default (editing s_draw) (u_newType drawn_update)
     /\ recipes s'
        = (if Js.truthy (u_newType drawn_update)
           then map recipe_deactivate (recipes s_draw) else recipes s_draw))
  /\ (forall ty, u_newType drawn_update = Some ty ->
        exists recipe, recipe ∈ recipes s_draw
          /\ newType (recipe_update recipe InProgress 20 track0 ["drawn"] None) = Some ty)
  /\ (Js.truthy_string (u_newSelectedKey drawn_update) = true ->
        exists recipe, recipe ∈ recipes s_draw
          /\ newSelectedKey (recipe_update recipe InProgress 20 track0 ["drawn"] None)
             = u_newSelectedKey drawn_update)
  /\ (forall recipe, recipe ∈ recipes s_draw ->
        (Js.truthy (newType (recipe_update recipe InProgress 20 track0 ["drawn"] None)) = true ->
         u_newType drawn_update = newType (recipe_update recipe InProgress 20 track0 ["drawn"] None))
        /\ (Js.truthy_string
              (newSelectedKey (recipe_update recipe InProgress 20 track0 ["drawn"] None)) = true ->
            u_newSelectedKey drawn_update
            = newSelectedKey (recipe_update recipe InProgress 20 track0 ["drawn"] None))).
Proof.
  apply (handleUpdateGeoJSON_mode_switch s_draw 0 track0 InProgress 20 0 "drawn" None true
           drawn_update); reflexivity.
Defined.

(** The recipe that switches the editing type to polygon is deactivated
    together with the others. *)
Lemma handleUpdateGeoJSON_deactivates_type_changer :
  let s' := final (handleUpdateGeoJSON InProgress 20 0 "drawn" None true s_draw) in
  map (fun r => (cr_name r, cr_active r, newType (cr_result r))) (recipes s_draw)
    = [("PolygonBase", true, Some EditPolygon); ("HeadTail", true, None)]
  /\ editing s_draw = EditRectangle
  /\ editing s' = EditPolygon
  /\ map (fun r => (cr_name r, cr_active r)) (recipes s')
     = [("PolygonBase", false); ("HeadTail", false)].
Proof. repeat split. Qed.

(** C7: at a session with a selection, linking not active, and a camera name
    the camera map does not hold, [handleStartLinking] throws, yet the
    linking flag it raised before checking the camera stays raised: the
    failing call has changed the session. *)
Theorem handleStartLinking_unknown_camera_sets_flag :
  let out := handleStartLinking "left" s_selected in
  selectedTrackId s_selected = Some 1
  /\ linkingState s_selected = false
  /\ camMap s_selected !! "left" = None
  /\ threw out
     = Some (mkError InvalidState "Camera: left does not exist in the system for linking")
  /\ linkingState (final out) = true
  /\ final out = set_linkingState true s_selected.
Proof. repeat split. Qed.

(** The scenarios of [useTrackStore.spec.ts]. *)
Example can_add_and_remove_tracks :
  map trackId (TrackStore.getTrackAll (TrackStore.camMap two_tracks) 1) = [1]
  /\ TrackStore.queryInterval (10, 10) two_tracks = [1]
  /\ TrackStore.queryInterval (10, 20) two_tracks = [0; 1]
  /\ TrackStore.queryInterval (10, 10) (remove_from 1 two_tracks) = []
  /\ TrackStore.queryInterval (10, 20) (remove_from 1 two_tracks) = [0]
  /\ TrackStore.queryInterval (10, 20) (remove_from 0 (remove_from 1 two_tracks)) = [].
Proof. repeat split. Qed.

Example can_insert_and_delete_single_frame_detections :
  TrackStore.queryInterval (0, 0) (remove_from 1 (store_with [0; 0] TrackStore.emptyStore))
  = [0].
Proof. reflexivity. Qed.

(** Escaping from a freshly added, still empty track removes it; escaping
    after a shape was drawn on the selected track keeps the store. *)
Example escape_removes_new_track :
  TrackStore.lookup_track (camMap s_new_track) 2 "singleCam"
    = Some (TrackStore.newTrack 2 30 "foo")
  /\ TrackStore.lookup_track (camMap (final (handleEscapeMode s_new_track))) 2 "singleCam" = None
  /\ selectedTrackId (final (handleEscapeMode s_new_track)) = None.
Proof. repeat split. Qed.

Example escape_keeps_drawn_track :
  let s1 := final (handleUpdateGeoJSON InProgress 20 0 "drawn" None true s_draw) in
  store (final (handleEscapeMode s1)) = store s1
  /\ (features <$> TrackStore.lookup_track (camMap s1) 0 "singleCam") <> Some ∅.
Proof. split; [reflexivity|]. vm_compute. discriminate. Qed.

End Scenarios.

(** * Further properties of the mode manager *)

(** ** A small logic of kept properties *)

Section Preservation.
Context `{Ext : Externals} `{!TrackMethods} `{!RecipeOps} `{!RecipeRemoval}.
Variable P : State -> Prop.

Lemma preserves_ret {A} (a : A) : preserves P (ret a).
Proof. intros s Hs. exact Hs. Qed.

Lemma preserves_get : preserves P get.
Proof. intros s Hs. exact Hs. Qed.

Lemma preserves_throw {A} (e : Error) : preserves P (@throw _ _ A e).
Proof. intros s Hs. exact Hs. Qed.

Lemma preserves_lift {A} (r : Error + A) : preserves P (lift r).
Proof. destruct r; [apply preserves_throw|apply preserves_ret]. Qed.

Lemma preserves_modify (f : State -> State) :
  (forall s, P s -> P (f s)) -> preserves P (modify f).
Proof. intros Hf s Hs. apply Hf, Hs. Qed.

Lemma preserves_bind {A B} (m : M A) (k : A -> M B) :
  preserves P m -> (forall a, preserves P (k a)) -> preserves P (bind m k).
Proof.
  intros Hm Hk s Hs. unfold bind. specialize (Hm s Hs).
  destruct (m s) as [a s'|e s']; cbn in *; [apply Hk, Hm|exact Hm].
Qed.

Lemma preserves_bind_get {B} (k : State -> M B) :
  (forall s0, P s0 -> preserves P (k s0)) -> preserves P (bind get k).
Proof. intros Hk s Hs. unfold bind, get. apply (Hk s Hs s Hs). Qed.

Lemma preserves_forEach {A} (f : A -> M unit) (l : list A) :
  (forall x, preserves P (f x)) -> preserves P (forEach f l).
Proof.
  intros Hf. induction l as [|x l IH]; cbn [forEach]; [apply preserves_ret|].
  apply preserves_bind; [apply Hf|intros _; exact IH].
Qed.

Lemma preserves_async_call (m : M unit) :
  (forall s ev, P s -> P (set_events (events s ++ [ev]) s)) ->
  preserves P m -> preserves P (async_call m).
Proof.
  intros Hev Hm s Hs. unfold async_call. specialize (Hm s Hs).
  destruct (m s) as [a s'|e s']; cbn in *; [exact Hm|apply Hev, Hm].
Qed.

Lemma preserves_emit (ev : Event) :
  (forall s ev, P s -> P (set_events (events s ++ [ev]) s)) -> preserves P (emit ev).
Proof. intros Hev. apply preserves_modify. intros s Hs. apply Hev, Hs. Qed.

End Preservation.

Ltac head_of t :=
  lazymatch t with
  | ?f _ => head_of f
  | _ => t
  end.

(** Walks through a handler: [known] closes the calls that have a lemma of
    their own, the remaining calls are opened, and the session updates are
    left to [side]. *)
Ltac keep_step known side :=
  first
    [ known
    | lazymatch goal with
      | |- preserves _ (@ret _ _ _ _) => apply preserves_ret
      | |- preserves _ (@get _ _) => apply preserves_get
      | |- preserves _ (@throw _ _ _ _) => apply preserves_throw
      | |- preserves _ (@lift _ _ _ _) => apply preserves_lift
      | |- preserves _ (@bind _ _ _ _ (@get _ _) _) => apply preserves_bind_get; intros ? ?
      | |- preserves _ (@bind _ _ _ _ _ _) => apply preserves_bind; [|intros ?]
      | |- preserves _ (@forEach _ _ _ _ _) => apply preserves_forEach; intros ?
      | |- preserves _ (@async_call _ _ _) => apply preserves_async_call; [intros ? ? ?; side|]
      | |- preserves _ (@emit _ _ _) => apply preserves_emit; intros ? ? ?; side
      | |- preserves _ (@modify _ _ _) => apply preserves_modify; intros ? ?; side
      | |- preserves _ (if ?b then _ else _) => destruct b
      | |- preserves _ (match ?x with _ => _ end) => destruct x
      | |- preserves _ (let _ := _ in _) => cbv zeta
      | |- preserves _ ?m => let h := head_of m in unfold h
      end ].

Ltac keep_with known side := repeat keep_step known side.

Lemma NoDup_set_of_list seen l : NoDup (Js.set_of_list seen l).
Proof.
  revert seen. induction l as [|x l IH]; intros seen; cbn; [constructor|].
  case_bool_decide as Hx; [apply IH|].
  apply NoDup_cons. split; [|apply IH].
  intros Hin. apply set_of_list_elem in Hin as [_ Hnot]. apply Hnot. left.
Qed.

Section Invariants.
Context `{Ext : Externals} `{!TrackMethods} `{!RecipeOps} `{!RecipeRemoval}.
Variable selectNextTrack : Z -> State -> option TrackId.

Ltac distinct_side :=
  unfold merge_list_distinct in *; cbn;
  first [ assumption
        | apply NoDup_set_of_list
        | apply NoDup_filter; assumption
        | apply NoDup_singleton
        | apply NoDup_nil_2 ].

Lemma perform_merge_list_distinct (a : Action) (s : State) :
  NoDup (mergeList s) -> NoDup (mergeList (perform selectNextTrack a s)).
Proof.
  intros Hs. change (merge_list_distinct (perform selectNextTrack a s)).
  destruct a; cbn [perform];
    match goal with |- _ (final (?m s)) => cut (preserves merge_list_distinct m) end;
    try (intros Hm; exact (Hm s Hs)); keep_with fail distinct_side.
Qed.

Ltac same_side := cbn; assumption.

Lemma perform_camera_and_settings (a : Action) (s : State) :
  selectedCamera (perform selectNextTrack a s) = selectedCamera s
  /\ trackSettings (perform selectNextTrack a s) = trackSettings s.
Proof.
  set (P := fun s' : State =>
              selectedCamera s' = selectedCamera s /\ trackSettings s' = trackSettings s).
  change (P (perform selectNextTrack a s)).
  assert (Hs : P s) by (split; reflexivity).
  destruct a; cbn [perform];
    match goal with |- _ (final (?m s)) => cut (preserves P m) end;
    try (intros Hm; exact (Hm s Hs)); subst P; keep_with fail same_side.
Qed.

Lemma perform_store (a : Action) (s : State) :
  writes_tracks a = false -> store (perform selectNextTrack a s) = store s.
Proof.
  intros Ha.
  set (P := fun s' : State => store s' = store s).
  change (P (perform selectNextTrack a s)).
  assert (Hs : P s) by reflexivity.
  destruct a; try discriminate Ha; cbn [perform];
    match goal with |- _ (final (?m s)) => cut (preserves P m) end;
    try (intros Hm; exact (Hm s Hs)); subst P; keep_with fail same_side.
Qed.

Lemma handleSelectTrack_linking_idle trackId_ edit :
  preserves linking_idle (handleSelectTrack trackId_ edit).
Proof.
  intros s Hs. unfold handleSelectTrack, _setLinkingTrack, selectTrack, async_call, bind, get,
    modify, ret, emit, modify.
  destruct (negb _); cbn;
    destruct (Js.not_null trackId_), (mergeInProgress _), (linkingState s) eqn:Hl, trackId_; cbn;
    try exact Hs; try (unfold linking_idle; cbn; congruence);
    match goal with |- context [if ?b then _ else _] => destruct b end;
    cbn; try exact Hs; unfold linking_idle; cbn; congruence.
Qed.

Lemma handleStartLinking_linking_idle camera :
  preserves linking_idle (handleStartLinking camera).
Proof.
  intros s Hs. unfold handleStartLinking, bind, get, modify, throw, ret.
  destruct (negb (linkingState s) && _); cbn.
  - case_bool_decide; cbn; unfold linking_idle; cbn; congruence.
  - destruct (negb _); exact Hs.
Qed.

Lemma handleStopLinking_linking_idle : preserves linking_idle handleStopLinking.
Proof. intros s Hs. unfold linking_idle. cbn. auto. Qed.

Lemma handleEscapeMode_linking_idle : preserves linking_idle handleEscapeMode.
Proof.
  intros s Hs. rewrite handleEscapeMode_eq.
  repeat match goal with
         | |- context [match ?x with _ => _ end] => destruct x
         end; cbn; try exact Hs; unfold linking_idle; cbn; auto.
Qed.

Ltac idle_known :=
  first [ apply handleSelectTrack_linking_idle
        | apply handleEscapeMode_linking_idle
        | apply handleStartLinking_linking_idle
        | apply handleStopLinking_linking_idle ].

Ltac idle_side := unfold linking_idle in *; cbn; assumption.

Lemma perform_linking_idle (a : Action) (s : State) :
  linking_idle s -> linking_idle (perform selectNextTrack a s).
Proof.
  intros Hs.
  destruct a; cbn [perform];
    match goal with |- _ (final (?m s)) => cut (preserves linking_idle m) end;
    try (intros Hm; exact (Hm s Hs)); keep_with idle_known idle_side.
Qed.
Lemma perform_all_cons (a : Action) (actions : list Action) (s : State) :
  perform_all selectNextTrack (a :: actions) s
  = perform_all selectNextTrack actions (perform selectNextTrack a s).
Proof. reflexivity. Qed.

(** X1: whichever of the seventeen handlers of [Action] run, in whatever
    order and whether they return or throw, the merge list never comes to
    hold an id twice. *)
Theorem merge_list_stays_distinct (actions : list Action) (s : State) :
  NoDup (mergeList s) -> NoDup (mergeList (perform_all selectNextTrack actions s)).
Proof.
  revert s. induction actions as [|a actions IH]; intros s Hs; [exact Hs|].
  rewrite perform_all_cons. apply IH, perform_merge_list_distinct, Hs.
Qed.

(** X2: whichever of the seventeen handlers of [Action] run, in whatever
    order and whether they return or throw, a session that is not in
    linking mode holds neither a linking track nor a linking camera. *)
Theorem linking_stays_idle (actions : list Action) (s : State) :
  linking_idle s -> linking_idle (perform_all selectNextTrack actions s).
Proof.
  revert s. induction actions as [|a actions IH]; intros s Hs; [exact Hs|].
  rewrite perform_all_cons. apply IH, perform_linking_idle, Hs.
Qed.

(** X3: none of the seventeen handlers of [Action] ever writes the
    selected camera or the track settings. *)
Theorem camera_and_settings_never_written (actions : list Action) (s : State) :
  selectedCamera (perform_all selectNextTrack actions s) = selectedCamera s
  /\ trackSettings (perform_all selectNextTrack actions s) = trackSettings s.
Proof.
  revert s. induction actions as [|a actions IH]; intros s; [split; reflexivity|].
  rewrite perform_all_cons. destruct (IH (perform selectNextTrack a s)) as [-> ->].
  apply perform_camera_and_settings.
Qed.

(** X4: the tracks are out of reach of the handlers that only select,
    stage, link or switch annotation modes: after any sequence of them the
    store is the one they started from. *)
Theorem store_written_only_by_track_actions (actions : list Action) (s : State) :
  Forall (fun a => writes_tracks a = false) actions ->
  store (perform_all selectNextTrack actions s) = store s.
Proof.
  intros Hall. revert s. induction Hall as [|a actions Ha _ IH]; intros s; [reflexivity|].
  rewrite perform_all_cons, IH. apply perform_store, Ha.
Qed.
End Invariants.

Section DerivedState.
Context `{Ext : Externals} `{!TrackMethods} `{!RecipeOps}.

Lemma uniq_elem seen l x : x ∈ uniq seen l <-> x ∈ l /\ x ∉ seen.
Proof.
  revert seen. induction l as [|a l IH]; intros seen; simpl.
  - rewrite elem_of_nil. tauto.
  - case_bool_decide as Ha.
    + rewrite IH, elem_of_cons. split; [tauto|]. intros [[->|?] ?]; tauto.
    + rewrite elem_of_cons, IH, !elem_of_cons. split.
      * intros [->|[? ?]]; [tauto|]. split; [tauto|]. tauto.
      * intros [[->|?] ?]; [tauto|]. destruct (decide (x = a)); [tauto|]. right. tauto.
Qed.

Lemma uniq_NoDup seen l : NoDup (uniq seen l).
Proof.
  revert seen. induction l as [|x l IH]; intros seen; cbn; [constructor|].
  case_bool_decide as Hx; [apply IH|].
  apply NoDup_cons. split; [|apply IH].
  intros Hin. apply uniq_elem in Hin as [_ Hnot]. apply Hnot. left.
Qed.

(** X5: [visibleModes] lists every visible type once, and the type being
    edited with them exactly while a track is being edited. *)
Theorem visibleModes_spec (s : State) :
  NoDup (visibleModes s)
  /\ forall v, v ∈ visibleModes s
               <-> v ∈ visible s \/ (editingTrack s = true /\ v = VisEdit (editing s)).
Proof.
  unfold visibleModes, editingMode. split; [apply uniq_NoDup|].
  intros v. rewrite uniq_elem, elem_of_app. destruct (editingTrack s).
  - rewrite list_elem_of_singleton. split.
    + intros [[?|?] _]; auto.
    + intros [?|[_ ?]]; (split; [auto|apply not_elem_of_nil]).
  - split.
    + intros [[?|Hin] _]; [auto|inversion Hin].
    + intros [?|[? _]]; [|discriminate]. split; [auto|apply not_elem_of_nil].
Qed.

Variable has_geometry_type : EditAnnotationTypes -> KeyedGeometry -> bool.

(** X6: [editingDetails] is ['disabled'] exactly when no track is being
    edited or the selected camera has no track for the selection; it is
    ['Editing'] only for a feature with bounds at the current frame that,
    unless rectangles are edited, has a shape of the edited type. *)
Theorem editingDetails_spec (s : State) :
  (editingDetails has_geometry_type s = DetailsDisabled
   <-> editingTrack s = false \/ selected_track s = None)
  /\ (editingDetails has_geometry_type s = DetailsEditing ->
      exists track feature rest,
        selected_track s = Some track
        /\ getFeature track (ctl_frame (aggregateController s)) = Some feature :: rest
        /\ f_bounds feature <> None
        /\ (editing s = EditRectangle
            \/ exists shape, shape ∈ f_geometry feature
                             /\ has_geometry_type (editing s) shape = true)).
Proof.
  unfold editingDetails, editingMode, selected_track, TrackStore.getPossibleTrack.
  destruct (editingTrack s); [|split; [split; auto|discriminate]].
  destruct (selectedTrackId s) as [id|]; cbn; [|split; [split; auto|discriminate]].
  destruct (TrackStore.lookup_track _ _ _) as [track|]; [|split; [split; auto|discriminate]].
  destruct (getFeature track _) as [|[feature|] rest] eqn:Ef.
  1,3: split; [split; [discriminate|intros [|]; discriminate]|discriminate].
  destruct (f_bounds feature) eqn:Eb.
  2: split; [split; [discriminate|intros [|]; discriminate]|discriminate].
  case_bool_decide as Hrect.
  - split; [split; [discriminate|intros [|]; discriminate]|].
    intros _. exists track, feature, rest. rewrite Eb. repeat split; auto.
  - destruct (filter _ (f_geometry feature)) as [|shape l] eqn:Efil; cbn.
    + split; [split; [discriminate|intros [|]; discriminate]|discriminate].
    + split; [split; [discriminate|intros [|]; discriminate]|].
      intros _. exists track, feature, rest. rewrite Eb. repeat split; auto.
      right. exists shape.
      assert (Hin : shape ∈ filter (fun item => has_geometry_type (editing s) item = true)
                                   (f_geometry feature)) by (rewrite Efil; left).
      apply list_elem_of_filter in Hin. tauto.
Qed.

(** X7: selecting a feature handle never throws and stores the key
    (the empty key by default); selecting the selected handle deselects it,
    and selecting the same handle once more undoes the first call. *)
Theorem handleSelectFeatureHandle_toggle (s : State) (i : Z) (key : option string) :
  let s1 := final (handleSelectFeatureHandle i key s) in
  let s2 := final (handleSelectFeatureHandle i key s1) in
  threw (handleSelectFeatureHandle i key s) = None
  /\ selectedFeatureHandle s1 = (if decide (i = selectedFeatureHandle s) then -1 else i)
  /\ selectedKey s1 = default "" key
  /\ selectedFeatureHandle s2 = (if decide (i = selectedFeatureHandle s) then i else -1).
Proof.
  unfold handleSelectFeatureHandle, _selectKey, bind, get, modify. cbn.
  destruct (decide (i = selectedFeatureHandle s)) as [->|Hne].
  - rewrite Z.eqb_refl. cbn. destruct (selectedFeatureHandle s =? -1) eqn:E; cbn; auto.
    apply Z.eqb_eq in E. rewrite E. auto.
  - apply Z.eqb_neq in Hne. rewrite Hne. cbn. rewrite Z.eqb_refl. cbn. auto.
Qed.

(** X8: [handleSelectTrack] leaves creating mode on every path, also
    when it only stages or links, unless the track being created is
    selected again for editing. *)
Theorem handleSelectTrack_creating (s : State) (trackId_ : option TrackId) (edit : bool) :
  creating (final (handleSelectTrack trackId_ edit s))
  = creating s && edit && bool_decide (trackId_ = selectedTrackId s).
Proof.
  unfold handleSelectTrack, _setLinkingTrack, selectTrack, async_call, bind, get, modify, ret,
    emit, modify.
  destruct (creating s) eqn:Ec, edit, (bool_decide (trackId_ = selectedTrackId s));
    cbn; rewrite ?Ec; cbn;
    destruct (Js.not_null trackId_), (mergeInProgress _), (linkingState s), trackId_; cbn;
    rewrite ?Ec; try reflexivity;
    destruct (length _) as [|[|n]]; cbn; rewrite ?Ec; reflexivity.
Qed.
End DerivedState.

Lemma filter_unstage_app (l ids1 ids2 : list TrackId) :
  filter (fun trackId_ : TrackId => trackId_ ∉ ids2) (filter (fun trackId_ : TrackId => trackId_ ∉ ids1) l)
  = filter (fun trackId_ : TrackId => trackId_ ∉ ids1 ++ ids2) l.
Proof.
  induction l as [|x l IH]; [reflexivity|].
  destruct (decide (x ∈ ids1)) as [H1|H1].
  - rewrite (filter_cons_False _ x l) by tauto.
    rewrite (filter_cons_False (fun t : TrackId => t ∉ ids1 ++ ids2)); [exact IH|].
    rewrite elem_of_app. tauto.
  - rewrite (filter_cons_True _ x l) by exact H1.
    destruct (decide (x ∈ ids2)) as [H2|H2].
    + rewrite filter_cons_False by tauto.
      rewrite (filter_cons_False (fun t : TrackId => t ∉ ids1 ++ ids2)); [exact IH|].
      rewrite elem_of_app. tauto.
    + rewrite filter_cons_True by exact H2.
      rewrite (filter_cons_True (fun t : TrackId => t ∉ ids1 ++ ids2)); [now rewrite IH|].
      rewrite elem_of_app. tauto.
Qed.

Section Selection.
Context `{Ext : Externals} `{!TrackMethods} `{!RecipeOps}.
Variable selectNextTrack : Z -> State -> option TrackId.

(** X9: deselecting while linking returns early: apart from creating
    mode the session stays as it is, the selection included. *)
Theorem handleSelectTrack_null_while_linking (s : State) (edit : bool) :
  linkingState s = true ->
  handleSelectTrack None edit s = Ok tt (after_creating_check None edit s).
Proof.
  intros Hl. unfold handleSelectTrack, after_creating_check, bind, get, ret, modify.
  destruct (negb _); cbn; rewrite Hl; reflexivity.
Qed.

(** X10: toggling merge mode with a track selected stages that track,
    keeps it selected and ends editing; toggling again empties the list,
    so that only the editing flag tells the session from the first one. *)
Theorem handleToggleMerge_twice (s : State) (id : TrackId) :
  mergeList s = [] ->
  selectedTrackId s = Some id ->
  exists s1 : State,
    handleToggleMerge s = Ok [id] s1
    /\ mergeList s1 = [id]
    /\ selectedTrackId s1 = Some id
    /\ editingTrack s1 = false
    /\ handleToggleMerge s1 = Ok [] (set_editingTrack false s).
Proof.
  intros Hm Hsel. destruct s. cbn in Hm, Hsel. subst.
  eexists. split; [reflexivity|]. cbn. auto.
Qed.

(** X12: unstaging two lists of ids one after the other is unstaging
    them together. *)
Theorem handleUnstageFromMerge_compose (s : State) (ids1 ids2 : list TrackId) :
  bind (handleUnstageFromMerge ids1) (fun _ => handleUnstageFromMerge ids2) s
  = handleUnstageFromMerge (ids1 ++ ids2) s.
Proof.
  unfold handleUnstageFromMerge, bind, modify. cbn. rewrite filter_unstage_app. reflexivity.
Qed.

(** X14: when the user declines the delete confirmation, the prompt is
    all that happened. *)
Theorem handleRemoveTrack_declined (s : State) (trackIds : list TrackId) (cameraName : string) :
  del_promptUser (trackSettings s) = true ->
  handleRemoveTrack selectNextTrack trackIds false cameraName false s
  = Ok tt (set_events
             (events s ++ [EvPrompt "Delete Confirmation" (delete_confirmation_text trackIds) true])
             s).
Proof.
  intros Hp. unfold handleRemoveTrack, bind, get, emit, modify, ret. cbn. rewrite Hp. reflexivity.
Qed.

(** X19: starting to link towards a known camera and stopping again
    leads back to the session before. *)
Theorem handleStartLinking_then_stop (s : State) (camera : string) :
  linkingState s = false ->
  linkingTrack s = None ->
  linkingCamera s = "" ->
  selectedTrackId s <> None ->
  is_Some (camMap s !! camera) ->
  exists s1 : State,
    handleStartLinking camera s = Ok tt s1
    /\ linkingState s1 = true
    /\ linkingCamera s1 = camera
    /\ linkingTrack s1 = None
    /\ handleStopLinking s1 = Ok tt s.
Proof.
  intros Hl Ht Hc Hsel Hcam.
  rewrite (handleStartLinking_known_camera s camera Hl Hsel Hcam).
  eexists. split; [reflexivity|]. cbn. repeat split; [exact Ht|].
  destruct s. cbn in *. subst. reflexivity.
Qed.

(** X20: while linking, starting to link does nothing: the linking
    camera cannot be changed without stopping first, and an unknown camera
    is not reported. *)
Theorem handleStartLinking_already_linking (s : State) (camera : string) :
  linkingState s = true ->
  selectedTrackId s <> None ->
  handleStartLinking camera s = Ok tt s.
Proof.
  intros Hl Hsel. unfold handleStartLinking, bind, get. rewrite Hl.
  destruct (selectedTrackId s); [reflexivity|congruence].
Qed.

(** X21: [handleEscapeMode] never throws, and escaping twice is
    escaping once. *)
Theorem handleEscapeMode_idempotent (s : State) :
  exists s1 : State, handleEscapeMode s = Ok tt s1 /\ handleEscapeMode s1 = Ok tt s1.
Proof.
  assert (Hform : exists s0, handleEscapeMode s = Ok tt (escape_cleared s0)).
  { rewrite handleEscapeMode_eq.
    destruct (selectedTrackId s) as [id|]; [|eauto].
    destruct (TrackStore.lookup_track _ _ _) as [track|] eqn:Et; [|eauto].
    destruct (_ && _); [|eauto].
    destruct (removeTrack_present id true (selectedCamera s) (selectedCamera s) (store s) track Et)
      as [st' ->]; [right; reflexivity|eauto]. }
  destruct Hform as [s0 Hrun]. exists (escape_cleared s0). split; [exact Hrun|].
  rewrite handleEscapeMode_eq. reflexivity.
Qed.
End Selection.

Section Removal.
Context `{Ext : Externals} `{!TrackMethods} `{!RecipeOps}.
Variable selectNextTrack : Z -> State -> option TrackId.

Lemma getTrackAll_nil (cm : gmap string (gmap Z Track)) (id : TrackId) :
  (forall c, TrackStore.lookup_track cm id c = None) -> TrackStore.getTrackAll cm id = [].
Proof.
  intros Hnone. destruct (TrackStore.getTrackAll cm id) as [|t l] eqn:Eall; [reflexivity|].
  assert (Hin : t ∈ TrackStore.getTrackAll cm id) by (rewrite Eall; left).
  unfold TrackStore.getTrackAll in Hin. apply list_elem_of_omap in Hin as ([cam m] & Hcm & Hm).
  apply elem_of_map_to_list in Hcm. cbn in Hm.
  specialize (Hnone cam). unfold TrackStore.lookup_track in Hnone. rewrite Hcm in Hnone.
  cbn in Hnone. congruence.
Qed.

Lemma removeTrack_missing id quiet cam st :
  (forall c, TrackStore.lookup_track (TrackStore.camMap st) id c = None) ->
  exists e, TrackStore.removeTrack id quiet cam st = inl e /\ kind e = NotFound.
Proof.
  intros Hnone. unfold TrackStore.removeTrack. destruct (String.eqb cam "").
  - rewrite getTrackAll_nil by exact Hnone. eauto.
  - rewrite Hnone. eauto.
Qed.

Lemma removeTrack_NotFound id quiet cam st e :
  TrackStore.removeTrack id quiet cam st = inl e -> kind e = NotFound.
Proof.
  unfold TrackStore.removeTrack. destruct (String.eqb cam "").
  - destruct (TrackStore.getTrackAll _ _); [|discriminate]. now intros [= <-].
  - destruct (TrackStore.lookup_track _ _ _); [discriminate|]. now intros [= <-].
Qed.

(** Removing a list of ids, one of which no camera holds, fails with
    [NotFound]; only the store has changed by then. *)
Lemma forEach_removeTrack_missing (ids : list TrackId) (cam : string) (id : TrackId) (s : State) :
  id ∈ ids ->
  (forall c, TrackStore.lookup_track (camMap s) id c = None) ->
  exists e st',
    forEach (fun trackId_ => removeTrack trackId_ false cam) ids s = Throw e (set_store st' s)
    /\ kind e = NotFound.
Proof.
  revert s. induction ids as [|x ids IH]; intros s Hin Hnone; [inversion Hin|].
  cbn [forEach]. unfold bind at 1. unfold removeTrack at 1.
  unfold bind at 1, get at 1. unfold bind at 1, lift.
  destruct (TrackStore.removeTrack x false cam (store s)) as [e|st1] eqn:Ex.
  - exists e, (store s). split; [destruct s; reflexivity|]. eapply removeTrack_NotFound, Ex.
  - unfold ret at 1, modify at 1.
    apply elem_of_cons in Hin as [->|Hin].
    { destruct (removeTrack_missing x false cam (store s) Hnone) as (e & He & _). congruence. }
    destruct (IH (set_store st1 s) Hin) as (e & st' & Hrun & Hk).
    { intros c. unfold camMap. cbn. rewrite (removeTrack_lookup _ _ _ _ _ Ex).
      destruct (decide _); [reflexivity|apply Hnone]. }
    exists e, st'. rewrite Hrun. split; [destruct s; reflexivity|exact Hk].
Qed.

(** X16: removing a list with an id that no camera holds throws
    [NotFound]; the merge list and the selection are not updated, whatever
    was removed before the failure. *)
Theorem handleRemoveTrack_missing (s : State) (trackIds : list TrackId) (id : TrackId)
    (cameraName : string) :
  id ∈ trackIds ->
  (forall c, TrackStore.lookup_track (camMap s) id c = None) ->
  exists e s',
    handleRemoveTrack selectNextTrack trackIds true cameraName true s = Throw e s'
    /\ kind e = NotFound
    /\ mergeList s' = mergeList s
    /\ selectedTrackId s' = selectedTrackId s
    /\ editingTrack s' = editingTrack s
    /\ events s' = events s.
Proof.
  intros Hin Hnone.
  destruct (forEach_removeTrack_missing trackIds cameraName id s Hin Hnone)
    as (e & st' & Hrun & Hk).
  exists e, (set_store st' s). split; [|cbn; auto].
  unfold handleRemoveTrack. unfold bind at 1, get at 1. cbn [negb andb].
  unfold bind at 1, ret at 1. unfold bind at 1. rewrite Hrun. reflexivity.
Qed.

(** X15: a confirmed removal of distinct tracks, not restricted to a
    camera, deletes them from every camera and from the merge list, leaves
    every other track alone, and moves the selection to the next track, or
    to the previous one when there is no next, with editing off. *)
Theorem handleRemoveTrack_confirmed (s : State) (trackIds : list TrackId) (cam : string)
    (forcePromptDisable : bool) :
  NoDup trackIds ->
  (forall id, id ∈ trackIds -> is_Some (TrackStore.lookup_track (camMap s) id cam)) ->
  exists s' : State,
    handleRemoveTrack selectNextTrack trackIds forcePromptDisable "" true s = Ok tt s'
    /\ (forall i c, TrackStore.lookup_track (camMap s') i c
                    = if decide (i ∈ trackIds) then None
                      else TrackStore.lookup_track (camMap s) i c)
    /\ mergeList s' = filter (fun i => i ∉ trackIds) (mergeList s)
    /\ selectedTrackId s'
       = match selectNextTrack 1 s with
         | Some next => Some next
         | None => selectNextTrack (-1) s
         end
    /\ editingTrack s' = false.
Proof.
  intros Hnd Hall.
  assert (Hloop : forall s0 : State,
    camMap s0 = camMap s ->
    exists st',
      forEach (fun trackId_ => removeTrack trackId_ false "") trackIds s0 = Ok tt (set_store st' s0)
      /\ forall i c, TrackStore.lookup_track (TrackStore.camMap st') i c
                     = if decide (i ∈ trackIds) then None
                       else TrackStore.lookup_track (camMap s) i c).
  { intros s0 Hcm. destruct (forEach_removeTrack selectNextTrack trackIds cam s0 Hnd) as (st' & Hrun & Hl).
    - rewrite Hcm. exact Hall.
    - exists st'. split; [exact Hrun|]. intros i c. rewrite Hl, Hcm. reflexivity. }
  unfold handleRemoveTrack. unfold bind at 1, get at 1.
  destruct (negb forcePromptDisable && del_promptUser (trackSettings s)).
  - unfold bind at 1. unfold bind at 1, emit at 1, modify at 1. unfold ret at 1.
    cbv beta iota.
    destruct (Hloop (set_events
                       (events s ++ [EvPrompt "Delete Confirmation"
                                       (delete_confirmation_text trackIds) true]) s))
      as (st' & Hrun & Hl); [reflexivity|].
    unfold bind at 1. rewrite Hrun. eexists. split; [reflexivity|]. cbn.
    split; [exact Hl|]. auto.
  - unfold bind at 1, ret at 1. destruct (Hloop s eq_refl) as (st' & Hrun & Hl).
    unfold bind at 1. rewrite Hrun. eexists. split; [reflexivity|]. cbn.
    split; [exact Hl|]. auto.
Qed.

(** X11: [handleToggleMerge] never throws and returns the merge list it
    leaves; the list is empty, or it holds just the selected track, which
    happens only when nothing was staged, and editing is then off. *)
Theorem handleToggleMerge_returns_merge_list (s : State) :
  exists s' : State,
    handleToggleMerge s = Ok (mergeList s') s'
    /\ (mergeList s' = []
        \/ exists id, selectedTrackId s = Some id /\ mergeList s = []
                      /\ mergeList s' = [id] /\ editingTrack s' = false)
    /\ selectedTrackId s' = selectedTrackId s
    /\ store s' = store s.
Proof.
  unfold handleToggleMerge, selectTrack, bind, get, modify, ret, mergeInProgress.
  destruct (selectedTrackId s) as [id|] eqn:Esel; cbn.
  - destruct (mergeList s) as [|x l] eqn:Em; cbn.
    + exists (set_editingTrack false (set_selectedTrackId (Some id) (set_mergeList [id] s))).
      split; [reflexivity|]. cbn. split; [right; exists id; auto|auto].
    + exists (set_mergeList [] s). split; [reflexivity|]. cbn. auto.
  - exists (set_mergeList [] s). split; [reflexivity|]. cbn. auto.
Qed.
End Removal.

Section EditAndMerge.
Context `{Ext : Externals} `{!TrackMethods} `{!RecipeOps} `{!RecipeRemoval}.
Variable selectNextTrack : Z -> State -> option TrackId.

(** [handleSelectTrack] always returns, and leaves the annotation modes,
    the selected key and handle, the recipes, the store and the media
    controller alone. *)
Lemma handleSelectTrack_frame (s : State) (trackId_ : option TrackId) (edit : bool) :
  exists s' : State,
    handleSelectTrack trackId_ edit s = Ok tt s'
    /\ editing s' = editing s /\ visible s' = visible s /\ selectedKey s' = selectedKey s
    /\ recipes s' = recipes s /\ store s' = store s
    /\ selectedFeatureHandle s' = selectedFeatureHandle s
    /\ aggregateController s' = aggregateController s.
Proof.
  unfold handleSelectTrack, _setLinkingTrack, selectTrack, async_call, bind, get, modify, ret,
    emit, modify.
  destruct (negb _); cbn;
    destruct (Js.not_null trackId_), (mergeInProgress _), (linkingState s), trackId_; cbn;
    try (eexists; split; [reflexivity|]; cbn; auto 10);
    destruct (length _) as [|[|n]]; cbn; eexists; (split; [reflexivity|]); cbn; auto 10.
Qed.

(** X29: setting the editing type never throws: it stores the type and
    the key (the empty key by default), replaces the visible types only if
    some were given, deactivates every recipe but the named one, and
    writes no track. *)
Theorem handleSetAnnotationState_editing (s : State)
    (visible_ : option (list VisibleAnnotationTypes)) (editing_ : EditAnnotationTypes)
    (key recipeName : option string) :
  exists s' : State,
    handleSetAnnotationState (mkSetAnnotationStateArgs visible_ (Some editing_) key recipeName) s
    = Ok tt s'
    /\ editing s' = editing_
    /\ selectedKey s' = default "" key
    /\ visible s' = default (visible s) visible_
    /\ recipes s'
       = map (fun r => if bool_decide (recipeName = Some (recipe_name r)) then r
                       else recipe_deactivate r) (recipes s)
    /\ store s' = store s.
Proof.
  unfold handleSetAnnotationState. cbn [arg_visible arg_editing arg_key arg_recipeName].
  set (s1 := match visible_ with Some v => set_visible v s | None => s end).
  set (s2 := set_selectedKey (default "" key) (set_editing editing_ s1)).
  destruct (handleSelectTrack_frame s2 (selectedTrackId s2) true)
    as (s3 & Hrun & He & Hv & Hk & Hr & Hst & _).
  exists (set_recipes
            (map (fun r => if bool_decide (recipeName <> Some (recipe_name r))
                           then recipe_deactivate r else r) (recipes s3)) s3).
  split.
  - unfold bind at 1.
    assert (Hvis : match visible_ with
                 | Some v => modify (set_visible v)
                 | None => ret tt
                 end s = Ok tt s1) by (destruct visible_; reflexivity).
    rewrite Hvis. unfold bind at 1, modify at 1. unfold bind at 1.
    assert (Hkey : _selectKey key (set_editing editing_ s1) = Ok tt s2)
      by (destruct key; reflexivity).
    rewrite Hkey. unfold bind at 1, get at 1. unfold bind at 1. rewrite Hrun. reflexivity.
  - cbn. rewrite He, Hk, Hv, Hr, Hst. unfold s2, s1.
    destruct visible_; cbn; (repeat split);
      apply map_ext; intros r;
      destruct (decide (recipeName = Some (recipe_name r))) as [Heq|Hne];
      rewrite ?(bool_decide_eq_true_2 _ Heq), ?(bool_decide_eq_false_2 _ Hne);
      try (rewrite bool_decide_eq_false_2 by tauto; reflexivity);
      rewrite bool_decide_eq_true_2 by exact Hne; reflexivity.
Qed.

(** X30: outside merge and linking mode, [handleTrackEdit] on the
    selected track toggles editing and keeps the selection; a second call
    restores the editing flag, and the store is untouched. *)
Theorem handleTrackEdit_toggle (s : State) (id : TrackId) (track : Track) :
  TrackStore.lookup_track (camMap s) id (selectedCamera s) = Some track ->
  selectedTrackId s = Some id ->
  mergeList s = [] ->
  linkingState s = false ->
  exists s1 s2 : State,
    handleTrackEdit id s = Ok tt s1
    /\ editingTrack s1 = negb (editingTrack s)
    /\ selectedTrackId s1 = Some id
    /\ handleTrackEdit id s1 = Ok tt s2
    /\ editingTrack s2 = editingTrack s
    /\ selectedTrackId s2 = Some id
    /\ store s2 = store s.
Proof.
  intros Htrack Hsel Hm Hl.
  assert (Hstep : forall s0 : State,
    TrackStore.lookup_track (camMap s0) id (selectedCamera s0) = Some track ->
    selectedTrackId s0 = Some id -> mergeList s0 = [] -> linkingState s0 = false ->
    exists s1 : State,
      handleTrackEdit id s0 = Ok tt s1
      /\ editingTrack s1 = negb (editingTrack s0)
      /\ selectedTrackId s1 = Some id /\ store s1 = store s0
      /\ selectedCamera s1 = selectedCamera s0
      /\ mergeList s1 = [] /\ linkingState s1 = false).
  { intros s0 Ht0 Hs0 Hm0 Hl0. unfold handleTrackEdit. unfold bind at 1, get at 1.
    unfold TrackStore.getPossibleTrack. rewrite Ht0, Hs0.
    rewrite bool_decide_eq_true_2 by reflexivity.
    unfold handleSelectTrack, bind, get, ret, modify, selectTrack.
    destruct (negb _); cbn; unfold mergeInProgress; cbn; rewrite Hm0, Hl0; cbn;
      rewrite ?Hm0; cbn; rewrite ?andb_true_r;
      (eexists; split; [reflexivity|]; cbn; auto 10). }
  destruct (Hstep s Htrack Hsel Hm Hl) as (s1 & Hrun1 & He1 & Hs1 & Hst1 & Hc1 & Hm1 & Hl1).
  destruct (Hstep s1) as (s2 & Hrun2 & He2 & Hs2 & Hst2 & _); auto.
  { unfold camMap. rewrite Hst1, Hc1. exact Htrack. }
  exists s1, s2. rewrite He2, He1, negb_involutive, Hst2, Hst1. auto 10.
Qed.

Lemma mapM_getTrack_missing (cm : gmap string (gmap Z Track)) (cam : string)
    (ids : list TrackId) (id : TrackId) :
  id ∈ ids -> TrackStore.lookup_track cm id cam = None ->
  exists e, mapM (fun trackId_ => TrackStore.getTrack cm trackId_ cam) ids = inl e
            /\ kind e = NotFound.
Proof.
  intros Hin Hnone. induction ids as [|x ids IH]; [inversion Hin|]. cbn.
  unfold TrackStore.getTrack at 1.
  destruct (TrackStore.lookup_track cm x cam) as [t|] eqn:Ex.
  - apply elem_of_cons in Hin as [->|Hin]; [congruence|].
    destruct (IH Hin) as (e & -> & Hk). eauto.
  - eexists. split; reflexivity.
Qed.

(** X13: committing a merge with a candidate the selected camera does
    not hold throws [NotFound] before anything is written. *)
Theorem handleCommitMerge_missing_candidate (s : State) (id : TrackId) :
  (2 <= length (mergeList s))%nat ->
  id ∈ mergeList s ->
  TrackStore.lookup_track (camMap s) id (selectedCamera s) = None ->
  exists e, handleCommitMerge selectNextTrack s = Throw e s /\ kind e = NotFound.
Proof.
  intros Hlen Hin Hnone. unfold handleCommitMerge. unfold bind at 1, get at 1.
  destruct (mergeList s) as [|first [|second rest]]; cbn in Hlen; [lia|lia|].
  unfold bind at 1, lift at 1, TrackStore.getTrack at 1.
  destruct (TrackStore.lookup_track (camMap s) first (selectedCamera s)) as [t0|] eqn:Efirst.
  - apply elem_of_cons in Hin as [->|Hin]; [congruence|].
    destruct (mapM_getTrack_missing (camMap s) (selectedCamera s) (second :: rest) id Hin Hnone)
      as (e & Hmap & Hk).
    unfold ret at 1. unfold bind at 1, lift at 1. rewrite Hmap.
    exists e. split; [reflexivity|exact Hk].
  - eexists. split; reflexivity.
Qed.
End EditAndMerge.

Section RecordsMore.
Context {V : Type}.


End RecordsMore.

Section CollectMore.
Context `{Ext : Externals} `{!TrackMethods} `{!RecipeOps}.

Lemma has_prototype {V} key_ (o : list (string * V)) :
  key_ ∈ @JsRecord.prototype_keys -> JsRecord.has key_ o = true.
Proof.
  intros Hin. unfold JsRecord.has. apply orb_true_iff. right.
  apply existsb_exists. exists key_. split; [now apply list_elem_of_In|apply String.eqb_refl].
Qed.

Lemma has_cases {V} key_ (o : list (string * V)) :
  JsRecord.has key_ o = true -> key_ ∈ JsRecord.keys o \/ key_ ∈ @JsRecord.prototype_keys.
Proof.
  unfold JsRecord.has. intros Hh. apply orb_true_iff in Hh as [Hh|Hh].
  - left. now apply has_own_keys.
  - right. apply existsb_exists in Hh as (x & Hin & Heq). apply String.eqb_eq in Heq. subst x.
    now apply list_elem_of_In.
Qed.

Lemma inherited_clashes update changes : inherited_key changes -> clashes update changes.
Proof. intros (k & Hk & Hp). left. exists k. split; [exact Hk|now apply has_prototype]. Qed.

Lemma clashes_empty changes : clashes emptyUpdate changes -> inherited_key changes.
Proof.
  intros [(k & Hk & Hhas)|[[_ Hf]|[_ Hf]]]; [|discriminate Hf|discriminate Hf].
  exists k. split; [exact Hk|]. apply has_cases in Hhas as [Hin|Hp]; [inversion Hin|exact Hp].
Qed.

Lemma collect_changes_inl name changes update e :
  collect_changes name changes update = inl e -> clashes update changes.
Proof.
  unfold collect_changes. destruct (find _ _) as [k|] eqn:Ef.
  - intros _. apply find_some in Ef as [Hin Hhas]. left. exists k.
    split; [now apply list_elem_of_In|exact Hhas].
  - cbn. destruct (Js.truthy (newType changes)) eqn:Et; cbn.
    + destruct (Js.truthy (u_newType update)) eqn:Eu; [intros _; right; left; auto|].
      destruct (Js.truthy_string (newSelectedKey changes)) eqn:Ek; cbn; [|discriminate].
      destruct (Js.truthy_string (u_newSelectedKey update)) eqn:Euk; [|discriminate].
      intros _. right; right; auto.
    + destruct (Js.truthy_string (newSelectedKey changes)) eqn:Ek; cbn; [|discriminate].
      destruct (Js.truthy_string (u_newSelectedKey update)) eqn:Euk; [|discriminate].
      intros _. right; right; auto.
Qed.

Lemma clashes_inv name changes update update' later :
  collect_changes name changes update = inr update' ->
  clashes update' later ->
  clashes update later \/ conflicting changes later.
Proof.
  intros Hok. apply collect_changes_inr in Hok as (Hrec & _ & _ & _ & Hty & Hkey).
  unfold clashes, conflicting. rewrite Hrec, Hty, Hkey.
  intros [(k & Hk & Hhas)|[[Ht Hu]|[Ht Hu]]].
  - apply has_cases in Hhas as [Hin|Hp].
    + apply has_own_keys in Hin. rewrite has_own_assign in Hin.
      apply orb_true_iff in Hin as [Hin|Hin].
      * left. left. exists k. split; [exact Hk|]. unfold JsRecord.has. now rewrite Hin.
      * right. left. exists k. split; [now apply has_own_keys|exact Hk].
    + left. left. exists k. split; [exact Hk|now apply has_prototype].
  - destruct (Js.truthy (newType changes)) eqn:E; [right; right; left; auto|left; right; left; auto].
  - destruct (Js.truthy_string (newSelectedKey changes)) eqn:E;
      [right; right; right; auto|left; right; right; auto].
Qed.


Lemma conflict_among_cons nc results : conflict_among results -> conflict_among (nc :: results).
Proof.
  intros (before & n1 & c1 & between & n2 & c2 & after & -> & Hc).
  exists (nc :: before), n1, c1, between, n2, c2, after. auto.
Qed.

Lemma collect_inl results update e :
  collect results update = inl e ->
  (exists nc, nc ∈ results /\ clashes update (snd nc)) \/ conflict_among results.
Proof.
  revert update. induction results as [|[name changes] rest IH]; intros update; cbn.
  - discriminate.
  - destruct (collect_changes name changes update) as [e'|u1] eqn:E.
    + intros _. left. exists (name, changes). split; [left|]. eapply collect_changes_inl, E.
    + intros Hrest. apply IH in Hrest as [(nc & Hin & Hcl)|Hca].
      * destruct (clashes_inv _ _ _ _ _ E Hcl) as [Hu|Hconf].
        -- left. exists nc. split; [now right|exact Hu].
        -- right. apply list_elem_of_split in Hin as (between & after & ->).
           destruct nc as [n2 c2]. exists [], name, changes, between, n2, c2, after. auto.
      * right. now apply conflict_among_cons.
Qed.

(** X22: the recipe loop throws exactly when two results conflict or a
    result's data uses a key that every object inherits. *)
Theorem collect_throws_iff (results : list (string * RecipeResult)) :
  (exists e, collect results emptyUpdate = inl e)
  <-> conflict_among results \/ exists nc, nc ∈ results /\ inherited_key (snd nc).
Proof.
  split.
  - intros [e He]. apply collect_inl in He as [(nc & Hin & Hcl)|Hca]; [|auto].
    right. exists nc. split; [exact Hin|now apply clashes_empty].
  - intros [(before & n1 & c1 & between & n2 & c2 & after & -> & Hc)|(nc & Hin & Hk)].
    + now apply collect_conflict.
    + apply list_elem_of_split in Hin as (before & after & ->). destruct nc as [n c].
      apply collect_clash_later. now apply inherited_clashes.
Qed.


(** X23: a single recipe whose data is keyed by an inherited property
    name, such as [constructor], makes [handleUpdateGeoJSON] throw a
    conflict with nothing written, whatever the other recipes return. *)
Theorem handleUpdateGeoJSON_inherited_key (s : State) (id : TrackId) (track : Track)
    (eventType : EventType) (frameNum flickNum : Z) (data_ : SupportedFeature)
    (key : option string) (preventInterrupt : bool) (recipe : Recipe) :
  selectedTrackId s = Some id ->
  TrackStore.lookup_track (camMap s) id (selectedCamera s) = Some track ->
  recipe ∈ recipes s ->
  inherited_key (recipe_update recipe eventType frameNum track [data_] key) ->
  exists e,
    handleUpdateGeoJSON eventType frameNum flickNum data_ key preventInterrupt s = Throw e s
    /\ kind e = Conflict.
Proof.
  intros Hsel Htrack Hin Hk.
  rewrite (handleUpdateGeoJSON_run s id track) by assumption.
  assert (Hres : (recipe_name recipe, recipe_update recipe eventType frameNum track [data_] key)
                 ∈ recipe_results s eventType frameNum track data_ key).
  { unfold recipe_results. apply list_elem_of_In, in_map_iff.
    exists recipe. split; [reflexivity|now apply list_elem_of_In]. }
  apply list_elem_of_split in Hres as (before & after & Hres). rewrite Hres.
  destruct (collect_clash_later before (recipe_name recipe) _ after emptyUpdate
              (inherited_clashes emptyUpdate _ Hk))
    as [e He].
  rewrite He. exists e. split; [reflexivity|]. eapply collect_kind, He.
Qed.

(** X24: without a track for the selection on the selected camera
    [handleUpdateGeoJSON] throws with the session unchanged, telling a
    missing selection from a missing track. *)
Theorem handleUpdateGeoJSON_no_track (s : State)
    (eventType : EventType) (frameNum flickNum : Z) (data_ : SupportedFeature)
    (key : option string) (preventInterrupt : bool) :
  selected_track s = None ->
  handleUpdateGeoJSON eventType frameNum flickNum data_ key preventInterrupt s
  = Throw (match selectedTrackId s with
           | Some id => mkError NotFound (Js.show id +:+ " missing from trackMap")
           | None => mkError InvalidState
                       "Cannot call handleUpdateGeojson without a selected Track ID"
           end) s.
Proof.
  unfold selected_track, handleUpdateGeoJSON, TrackStore.getPossibleTrack, bind, get, throw.
  destruct (selectedTrackId s) as [id|]; cbn; [|reflexivity].
  intros ->. reflexivity.
Qed.









End CollectMore.

Section Creating.
Context `{Ext : Externals} `{!TrackMethods} `{!RecipeOps} `{!RecipeRemoval}.
Variable selectNextTrack : Z -> State -> option TrackId.

(** X26: when [handleAddTrackOrDetection] returns, the selected camera
    holds a new empty single-frame track at the current frame under the
    returned id, which is the override id if one was given; every other
    track is untouched, the track is selected for editing and creating
    mode is on.  When it throws, the session is unchanged. *)
Theorem handleAddTrackOrDetection_outcome (s : State) (overrideTrackId : option TrackId) :
  match handleAddTrackOrDetection overrideTrackId s with
  | Ok id s' =>
      selectedTrackId s' = Some id
      /\ editingTrack s' = true
      /\ creating s' = true
      /\ (forall oid, overrideTrackId = Some oid -> id = oid)
      /\ TrackStore.lookup_track (camMap s) id (selectedCamera s) = None
      /\ (exists t, TrackStore.lookup_track (camMap s') id (selectedCamera s) = Some t
                    /\ trackId t = id
                    /\ begin t = ctl_frame (aggregateController s)
                    /\ end_ t = ctl_frame (aggregateController s)
                    /\ features t = ∅)
      /\ (forall i c, (c, i) <> (selectedCamera s, id) ->
            TrackStore.lookup_track (camMap s') i c = TrackStore.lookup_track (camMap s) i c)
      /\ mergeList s' = mergeList s /\ events s' = events s
  | Throw _ s' => s' = s
  end.
Proof.
  unfold handleAddTrackOrDetection, addTrack, selectTrack, bind, get, ret, modify, lift, throw.
  set (frame := ctl_frame (aggregateController s)).
  assert (Hadd : forall ty,
    match TrackStore.addTrack frame ty (or_undefined (selectedTrackId s)) (selectedCamera s)
            overrideTrackId (store s) with
    | inl _ => True
    | inr (t, st') =>
        (forall oid, overrideTrackId = Some oid -> trackId t = oid)
        /\ TrackStore.lookup_track (camMap s) (trackId t) (selectedCamera s) = None
        /\ TrackStore.lookup_track (TrackStore.camMap st') (trackId t) (selectedCamera s) = Some t
        /\ begin t = frame /\ end_ t = frame /\ features t = ∅
        /\ (forall i c, (c, i) <> (selectedCamera s, trackId t) ->
              TrackStore.lookup_track (TrackStore.camMap st') i c
              = TrackStore.lookup_track (camMap s) i c)
    end).
  { intros ty. destruct (TrackStore.addTrack _ _ _ _ _ _) as [e|[t st']] eqn:E; [exact I|].
    pose proof (addTrack_lookup _ _ _ _ _ _ _ _ E) as (Hb & He & _ & Hnone & Hl).
    unfold TrackStore.addTrack in E.
    destruct (TrackStore.camMap (store s) !! selectedCamera s) as [m|]; [|discriminate].
    destruct (m !! _); [discriminate|]. injection E as <- _. cbn in *.
    split; [intros oid ->; reflexivity|]. split; [exact Hnone|].
    split; [rewrite Hl, decide_True by (split; reflexivity); reflexivity|].
    do 3 (split; [reflexivity|]).
    intros i c Hne. rewrite Hl, decide_False; [reflexivity|]. intros [-> ->]. congruence. }
  assert (Hfinish : forall ty,
    match
      match TrackStore.addTrack frame ty (or_undefined (selectedTrackId s)) (selectedCamera s)
              overrideTrackId (store s) with
      | inl e => @Throw _ _ TrackId e s
      | inr r =>
          Ok (trackId (fst r))
             (set_creating true (set_editingTrack true
                (set_selectedTrackId (Some (trackId (fst r))) (set_store (snd r) s))))
      end
    with
    | Ok id s' =>
        selectedTrackId s' = Some id
        /\ editingTrack s' = true
        /\ creating s' = true
        /\ (forall oid, overrideTrackId = Some oid -> id = oid)
        /\ TrackStore.lookup_track (camMap s) id (selectedCamera s) = None
        /\ (exists t, TrackStore.lookup_track (camMap s') id (selectedCamera s) = Some t
                      /\ trackId t = id /\ begin t = frame /\ end_ t = frame /\ features t = ∅)
        /\ (forall i c, (c, i) <> (selectedCamera s, id) ->
              TrackStore.lookup_track (camMap s') i c = TrackStore.lookup_track (camMap s) i c)
        /\ mergeList s' = mergeList s /\ events s' = events s
    | Throw _ s' => s' = s
    end).
  { intros ty. specialize (Hadd ty).
    destruct (TrackStore.addTrack _ _ _ _ _ _) as [e|[t st']]; [reflexivity|].
    destruct Hadd as (Ho & Hn & Hl & Hb & He & Hf & Hoth). cbn.
    do 3 (split; [reflexivity|]). split; [exact Ho|]. split; [exact Hn|].
    split; [exists t; auto 10|]. split; [exact Hoth|]. auto. }
  destruct overrideTrackId as [oid|]; cbn.
  - destruct (TrackStore.getAnyTrack (camMap s) oid) as [e|track]; cbn; [reflexivity|].
    destruct (confidencePairs track) as [|pair0 rest]; cbn; [reflexivity|].
    specialize (Hfinish (fst pair0)).
    destruct (TrackStore.addTrack _ _ _ _ _ _) as [e|[t st']]; cbn in *; exact Hfinish.
  - specialize (Hfinish (nts_type (trackSettings s))).
    destruct (TrackStore.addTrack _ _ _ _ _ _) as [e|[t st']]; cbn in *; exact Hfinish.
Qed.

Lemma handleAddTrackOrDetection_frame (s : State) (overrideTrackId : option TrackId) :
  match handleAddTrackOrDetection overrideTrackId s with
  | Ok _ s' =>
      editingCanary s' = editingCanary s /\ aggregateController s' = aggregateController s
  | Throw _ s' => s' = s
  end.
Proof.
  unfold handleAddTrackOrDetection, addTrack, selectTrack, bind, get, ret, modify, lift, throw.
  destruct overrideTrackId as [oid|]; cbn.
  - destruct (TrackStore.getAnyTrack (camMap s) oid) as [e|track]; cbn; [reflexivity|].
    destruct (confidencePairs track) as [|pair0 rest]; cbn; [reflexivity|].
    destruct (TrackStore.addTrack _ _ _ _ _ _) as [e|[t st']]; cbn; auto.
  - destruct (TrackStore.addTrack _ _ _ _ _ _) as [e|[t st']]; cbn; auto.
Qed.

(** X27: [newTrackSettingsAfterLogic] always nudges the editing canary
    when it returns; creating mode survives only with auto-advance, which
    steps one frame, or with continuous detections, which is the only way
    it writes a track and the only way it throws. *)
Theorem newTrackSettingsAfterLogic_outcome (addedTrack : Track) (s : State) :
  match newTrackSettingsAfterLogic addedTrack s with
  | Ok _ s' =>
      editingCanary s' = negb (editingCanary s)
      /\ creating s'
         = creating s && (auto_advances (trackSettings s) || continues_detections (trackSettings s))
      /\ aggregateController s'
         = (if creating s && auto_advances (trackSettings s)
            then ctl_nextFrame (aggregateController s) else aggregateController s)
      /\ (creating s && continues_detections (trackSettings s) = false -> store s' = store s)
  | Throw _ s' =>
      s' = s /\ creating s = true /\ continues_detections (trackSettings s) = true
  end.
Proof.
  unfold newTrackSettingsAfterLogic, auto_advances, continues_detections, _nudgeEditingCanary.
  unfold bind at 1, get at 1.
  destruct (creating s) eqn:Ec; [|cbn; auto].
  destruct (nts_mode (trackSettings s)) eqn:Em.
  - destruct (nts_autoAdvanceFrame (trackSettings s)) eqn:Ea; cbn; auto.
  - destruct (nts_continuous (trackSettings s)) eqn:Ek; [|cbn; auto].
    pose proof (handleAddTrackOrDetection_frame s None) as Hadd.
    unfold bind. destruct (handleAddTrackOrDetection None s) as [id s1|e s1]; cbn.
    + destruct Hadd as (Hcan & Hctl). rewrite Hcan, Hctl. split; [reflexivity|].
      split; [reflexivity|]. split; [reflexivity|]. discriminate.
    + auto.
Qed.
End Creating.

Section RectAndRemoval.
Context `{Ext : Externals} `{!TrackMethods} `{!RecipeOps} `{!RecipeRemoval}.
Variable selectNextTrack : Z -> State -> option TrackId.

Lemma handleAddTrackOrDetection_keeps_tracks (s : State) (overrideTrackId : option TrackId)
    (i : TrackId) (c : string) (t : Track) :
  TrackStore.lookup_track (camMap s) i c = Some t ->
  TrackStore.lookup_track (camMap (final (handleAddTrackOrDetection overrideTrackId s))) i c
  = Some t.
Proof.
  intros Hl.
  unfold handleAddTrackOrDetection, addTrack, selectTrack, bind, get, ret, modify, lift, throw.
  assert (Hadd : forall ty,
    match TrackStore.addTrack (ctl_frame (aggregateController s)) ty
            (or_undefined (selectedTrackId s)) (selectedCamera s) overrideTrackId (store s) with
    | inl _ => True
    | inr r => TrackStore.lookup_track (TrackStore.camMap (snd r)) i c = Some t
    end).
  { intros ty. destruct (TrackStore.addTrack _ _ _ _ _ _) as [e|[t' st']] eqn:E; [exact I|].
    apply addTrack_lookup in E as (_ & _ & _ & Hnone & Hlook). cbn. rewrite Hlook.
    destruct (decide _) as [[-> ->]|_]; [|exact Hl]. unfold camMap in Hl. congruence. }
  destruct overrideTrackId as [oid|]; cbn.
  - destruct (TrackStore.getAnyTrack (camMap s) oid) as [e|track]; cbn; [exact Hl|].
    destruct (confidencePairs track) as [|pair0 rest]; cbn; [exact Hl|].
    specialize (Hadd (fst pair0)).
    destruct (TrackStore.addTrack _ _ _ _ _ _) as [e|r]; cbn; [exact Hl|exact Hadd].
  - specialize (Hadd (nts_type (trackSettings s))).
    destruct (TrackStore.addTrack _ _ _ _ _ _) as [e|r]; cbn; [exact Hl|exact Hadd].
Qed.

Lemma newTrackSettingsAfterLogic_keeps_tracks (addedTrack : Track) (s : State)
    (i : TrackId) (c : string) (t : Track) :
  TrackStore.lookup_track (camMap s) i c = Some t ->
  TrackStore.lookup_track (camMap (final (newTrackSettingsAfterLogic addedTrack s))) i c = Some t.
Proof.
  intros Hl. unfold newTrackSettingsAfterLogic, _nudgeEditingCanary.
  unfold bind at 1, get at 1.
  destruct (creating s); [|exact Hl].
  destruct (nts_mode (trackSettings s)).
  - destruct (nts_autoAdvanceFrame (trackSettings s)); exact Hl.
  - destruct (nts_continuous (trackSettings s)); [|exact Hl].
    pose proof (handleAddTrackOrDetection_keeps_tracks s None i c t Hl) as Hk.
    unfold bind. destruct (handleAddTrackOrDetection None s) as [id s1|e s1]; exact Hk.
Qed.

(** X28: after [handleUpdateRectBounds] the selected track holds the
    bounds as a keyframe without shapes; it interpolates never in
    detection mode, as the settings say for a track being created, and as
    the track allows otherwise. *)
Theorem handleUpdateRectBounds_written (s : State) (id : TrackId) (track : Track)
    (frameNum flickNum : Z) (bounds : RectBounds) :
  selectedTrackId s = Some id ->
  TrackStore.lookup_track (camMap s) id (selectedCamera s) = Some track ->
  TrackStore.lookup_track
    (camMap (final (handleUpdateRectBounds frameNum flickNum bounds s))) id (selectedCamera s)
  = Some (setFeature
            (mkFeatureInput frameNum flickNum true (Some bounds)
               (match nts_mode (trackSettings s) with
                | ModeDetection => false
                | ModeTrack =>
                    if creating s then nts_interpolate (trackSettings s)
                    else snd (canInterpolate track frameNum)
                end))
            [] track).
Proof.
  intros Hsel Htrack.
  set (written := setFeature _ [] track).
  assert (Heq : handleUpdateRectBounds frameNum flickNum bounds s
                = newTrackSettingsAfterLogic written
                    (set_store (TrackStore.replaceTrack (selectedCamera s) id written (store s)) s)).
  { unfold handleUpdateRectBounds, TrackStore.getPossibleTrack, bind, get, modify.
    rewrite Hsel, Htrack. reflexivity. }
  rewrite Heq. apply newTrackSettingsAfterLogic_keeps_tracks. unfold camMap. cbn.
  rewrite replaceTrack_lookup by (unfold camMap in Htrack; rewrite Htrack; eauto).
  rewrite decide_True by (split; reflexivity). reflexivity.
Qed.

Lemma forEach_total {A} (f : A -> M unit) (l : list A) :
  (forall x s, exists s', f x s = Ok tt s') ->
  forall s, exists s', forEach f l s = Ok tt s'.
Proof.
  intros Hf. induction l as [|x l IH]; intros s; cbn; [eexists; reflexivity|].
  unfold bind. destruct (Hf x s) as [s1 ->]. apply IH.
Qed.

Lemma forEach_skip {A} (f : A -> M unit) (l : list A) (s : State) :
  (forall x, x ∈ l -> f x s = Ok tt s) -> forEach f l s = Ok tt s.
Proof.
  induction l as [|x l IH]; intros Hf; cbn; [reflexivity|].
  unfold bind. rewrite (Hf x) by left. apply IH. intros y Hy. apply Hf. now right.
Qed.

Lemma mutateTrack_total cam id f (s : State) :
  exists st', mutateTrack cam id f s = Ok tt (set_store st' s).
Proof.
  unfold mutateTrack, bind, get, modify.
  destruct (TrackStore.getPossibleTrack _ _ _); [eexists; reflexivity|].
  exists (store s). destruct s; reflexivity.
Qed.

(** The in-place mutations of the active recipes never throw and touch
    nothing but the store; without an active recipe the store stays too. *)
Lemma forEach_active_mutations (cam : string) (idx : TrackId) (g : Recipe -> Track -> Track)
    (rs : list Recipe) (s0 : State) :
  exists st',
    forEach (fun r => if recipe_active r then mutateTrack cam idx (g r) else ret tt) rs s0
    = Ok tt (set_store st' s0)
    /\ ((forall r, r ∈ rs -> recipe_active r = false) -> st' = store s0).
Proof.
  revert s0. induction rs as [|r rs IH]; intros s0; cbn [forEach].
  - exists (store s0). split; [destruct s0; reflexivity|auto].
  - unfold bind at 1. destruct (recipe_active r) eqn:Ea.
    + destruct (mutateTrack_total cam idx (g r) s0) as [st1 ->]. cbv beta iota.
      destruct (IH (set_store st1 s0)) as (st' & -> & _).
      exists st'. split; [reflexivity|]. intros Hall.
      specialize (Hall r ltac:(left)). congruence.
    + unfold ret at 1. cbv beta iota.
      destruct (IH s0) as (st' & -> & Hst). exists st'. split; [reflexivity|].
      intros Hall. apply Hst. intros r' Hr'. apply Hall. now right.
Qed.

(** X17: [handleRemovePoint] never throws and always ends with no
    handle and the empty key selected; without a handle, without a track
    for the selection or without an active recipe no track is written. *)
Theorem handleRemovePoint_spec (s : State) :
  exists s' : State,
    handleRemovePoint s = Ok tt s'
    /\ selectedFeatureHandle s' = -1
    /\ selectedKey s' = ""
    /\ (selectedFeatureHandle s = -1 \/ selected_track s = None
        \/ (forall r, r ∈ recipes s -> recipe_active r = false) ->
        store s' = store s).
Proof.
  assert (Htail : forall s1 : State, exists s2 : State,
    handleSelectFeatureHandle (-1) None s1 = Ok tt s2
    /\ selectedFeatureHandle s2 = -1 /\ selectedKey s2 = "" /\ store s2 = store s1).
  { intros s1. unfold handleSelectFeatureHandle, _selectKey, bind, get, modify. cbn.
    destruct (negb _); eexists; (split; [reflexivity|]); cbn; auto. }
  unfold handleRemovePoint. unfold bind at 1 2, get at 1.
  unfold selected_track, TrackStore.getPossibleTrack.
  destruct (selectedTrackId s) as [id|] eqn:Esel; cbn [Js.not_null andb].
  2:{ unfold ret at 1. cbv beta iota.
      destruct (Htail s) as (s2 & -> & Hh & Hk & Hst). exists s2. auto. }
  destruct (selectedFeatureHandle s =? -1) eqn:Eh; cbn [negb].
  { unfold ret at 1. cbv beta iota.
    destruct (Htail s) as (s2 & -> & Hh & Hk & Hst). exists s2. auto. }
  destruct (TrackStore.lookup_track _ _ _) as [track|] eqn:Et; cbn [mbind option_bind].
  2:{ unfold ret at 1. cbv beta iota.
      destruct (Htail s) as (s2 & -> & Hh & Hk & Hst). exists s2. auto. }
  destruct (forEach_active_mutations (selectedCamera s) id
              (fun r track => recipe_deletePoint r (ctl_frame (aggregateController s)) track
                                (selectedFeatureHandle s) (selectedKey s) (editing s))
              (recipes s) s) as (st' & Hloop & Hinactive).
  rewrite Hloop. cbv beta iota.
  destruct (Htail (set_store st' s)) as (s2 & -> & Hh & Hk & Hst). exists s2.
  do 3 (split; [auto|]). intros [Hneg|[Hnone|Hall]].
  - apply Z.eqb_neq in Eh. contradiction.
  - cbn in Hnone. congruence.
  - rewrite Hst. cbn. auto.
Qed.

(** X18: [handleRemoveAnnotation] never throws and keeps the selection
    and the handle; it nudges the editing canary exactly when the selected
    camera holds the selected track, and writes no track when there is
    none or no recipe is active. *)
Theorem handleRemoveAnnotation_spec (s : State) :
  exists s' : State,
    handleRemoveAnnotation s = Ok tt s'
    /\ editingCanary s'
       = match selected_track s with
         | Some _ => negb (editingCanary s)
         | None => editingCanary s
         end
    /\ selectedTrackId s' = selectedTrackId s
    /\ selectedFeatureHandle s' = selectedFeatureHandle s
    /\ (selected_track s = None \/ (forall r, r ∈ recipes s -> recipe_active r = false) ->
        store s' = store s).
Proof.
  unfold handleRemoveAnnotation. unfold bind at 1, get at 1.
  unfold selected_track, TrackStore.getPossibleTrack.
  destruct (selectedTrackId s) as [id|] eqn:Esel; cbn [mbind option_bind].
  2:{ exists s. cbn. auto. }
  destruct (TrackStore.lookup_track _ _ _) as [track|] eqn:Et.
  2:{ exists s. cbn. rewrite Esel. auto. }
  destruct (forEach_active_mutations (selectedCamera s) id
              (fun r track => recipe_delete r (ctl_frame (aggregateController s)) track
                                (selectedKey s) (editing s))
              (recipes s) s) as (st' & Hloop & Hinactive).
  unfold bind at 1. rewrite Hloop. cbv beta iota.
  eexists. split; [reflexivity|]. cbn. rewrite Esel. do 3 (split; [reflexivity|]).
  intros [Hnone|Hall]; [discriminate|auto].
Qed.
End RectAndRemoval.

(** ** The further properties on concrete sessions *)

Section MoreScenarios.
Import Demo DemoRemoval.
#[local] Existing Instances Demo.externals Demo.track_methods Demo.recipe_ops
  DemoRemoval.recipe_removal.

Lemma two_tracks_no_track_7 (c : string) :
  TrackStore.lookup_track (TrackStore.camMap two_tracks) 7 c = None.
Proof.
  assert (Hcm : TrackStore.camMap two_tracks
                = {[ "singleCam" := <[1 := track1]> (<[0 := track0]> ∅) ]})
    by (vm_compute; reflexivity).
  unfold TrackStore.lookup_track. rewrite Hcm.
  destruct (decide (c = "singleCam")) as [->|Hne].
  - rewrite lookup_singleton_eq. reflexivity.
  - rewrite lookup_singleton_ne by congruence. reflexivity.
Qed.

Lemma merge_list_stays_distinct_witness :
  NoDup (mergeList s_selected)
  /\ NoDup (mergeList
              (perform_all noNextTrack
                 [AToggleMerge; ASelectTrack (Some 0) false; ASelectTrack (Some 0) true;
                  ACommitMerge; ASelectTrack (Some 0) false]
                 s_selected)).
Proof.
  split; [apply NoDup_nil_2|].
  apply (merge_list_stays_distinct noNextTrack). apply NoDup_nil_2.
Defined.

Lemma linking_stays_idle_witness :
  linking_idle s_selected
  /\ linking_idle
       (perform_all noNextTrack
          [AStartLinking "left"; ASelectTrack (Some 0) false; AEscape; ATrackEdit 0]
          s_selected).
Proof.
  split; [intros _; split; reflexivity|].
  apply (linking_stays_idle noNextTrack). intros _. split; reflexivity.
Defined.

Lemma store_written_only_by_track_actions_witness :
  store (perform_all noNextTrack
           [AToggleMerge; ASelectTrack (Some 0) true;
            ASetAnnotationState (mkSetAnnotationStateArgs None (Some EditPolygon) None None);
            AStartLinking "singleCam"; ASelectNext 1; AStopLinking]
           s_selected)
  = store s_selected.
Proof.
  apply (store_written_only_by_track_actions noNextTrack). repeat constructor.
Defined.

Lemma handleSelectTrack_null_while_linking_witness :
  handleSelectTrack None true s_linking = Ok tt (after_creating_check None true s_linking).
Proof. apply (handleSelectTrack_null_while_linking s_linking true). reflexivity. Defined.

Lemma handleToggleMerge_twice_witness :
  exists s1 : State,
    handleToggleMerge s_editing = Ok [0] s1
    /\ mergeList s1 = [0]
    /\ selectedTrackId s1 = Some 0
    /\ editingTrack s1 = false
    /\ handleToggleMerge s1 = Ok [] (set_editingTrack false s_editing).
Proof. apply (handleToggleMerge_twice s_editing 0); reflexivity. Defined.

Lemma handleCommitMerge_missing_candidate_witness :
  exists e,
    handleCommitMerge noNextTrack s_commit_missing = Throw e s_commit_missing
    /\ kind e = NotFound.
Proof.
  apply (handleCommitMerge_missing_candidate noNextTrack s_commit_missing 7).
  - cbn. lia.
  - cbn. right; left.
  - apply two_tracks_no_track_7.
Defined.

Lemma handleRemoveTrack_declined_witness :
  handleRemoveTrack noNextTrack [0; 1] false "" false s_selected
  = Ok tt (set_events
             (events s_selected
              ++ [EvPrompt "Delete Confirmation" (delete_confirmation_text [0; 1]) true])
             s_selected).
Proof. apply (handleRemoveTrack_declined noNextTrack s_selected [0; 1] ""). reflexivity. Defined.

Lemma handleRemoveTrack_confirmed_witness :
  exists s' : State,
    handleRemoveTrack noNextTrack [1; 0] false "" true s_commit = Ok tt s'
    /\ (forall i c, TrackStore.lookup_track (camMap s') i c
                    = if decide (i ∈ [1; 0]) then None
                      else TrackStore.lookup_track (camMap s_commit) i c)
    /\ mergeList s' = filter (fun i => i ∉ [1; 0]) (mergeList s_commit)
    /\ selectedTrackId s'
       = match noNextTrack 1 s_commit with
         | Some next => Some next
         | None => noNextTrack (-1) s_commit
         end
    /\ editingTrack s' = false.
Proof.
  apply (handleRemoveTrack_confirmed noNextTrack s_commit [1; 0] "singleCam" false).
  - apply NoDup_cons. split; [|apply NoDup_singleton].
    intros Hin. apply list_elem_of_singleton in Hin. discriminate Hin.
  - intros id Hin. apply elem_of_cons in Hin as [->|Hin].
    + exists track1. reflexivity.
    + apply list_elem_of_singleton in Hin. subst id. exists track0. reflexivity.
Defined.

Lemma handleRemoveTrack_missing_witness :
  exists e s',
    handleRemoveTrack noNextTrack [0; 7] true "" true s_commit_missing = Throw e s'
    /\ kind e = NotFound
    /\ mergeList s' = mergeList s_commit_missing
    /\ selectedTrackId s' = selectedTrackId s_commit_missing
    /\ editingTrack s' = editingTrack s_commit_missing
    /\ events s' = events s_commit_missing.
Proof.
  apply (handleRemoveTrack_missing noNextTrack s_commit_missing [0; 7] 7 "").
  - right; left.
  - apply two_tracks_no_track_7.
Defined.

Lemma handleStartLinking_then_stop_witness :
  exists s1 : State,
    handleStartLinking "singleCam" s_selected = Ok tt s1
    /\ linkingState s1 = true
    /\ linkingCamera s1 = "singleCam"
    /\ linkingTrack s1 = None
    /\ handleStopLinking s1 = Ok tt s_selected.
Proof.
  apply (handleStartLinking_then_stop s_selected "singleCam"); try reflexivity.
  - discriminate.
  - eexists. reflexivity.
Defined.

Lemma handleStartLinking_already_linking_witness :
  handleStartLinking "nowhere" s_linking = Ok tt s_linking.
Proof.
  apply (handleStartLinking_already_linking s_linking "nowhere"); [reflexivity|discriminate].
Defined.

Lemma handleUpdateGeoJSON_inherited_key_witness :
  exists e,
    handleUpdateGeoJSON Editing 20 0 "drawn" None false s_inherited = Throw e s_inherited
    /\ kind e = Conflict.
Proof.
  apply (handleUpdateGeoJSON_inherited_key s_inherited 0 track0 Editing 20 0 "drawn" None false
           inherited_recipe).
  - reflexivity.
  - reflexivity.
  - left.
  - exists "constructor". split; left.
Defined.

Lemma handleUpdateGeoJSON_no_track_witness :
  handleUpdateGeoJSON Editing 20 0 "drawn" None false (set_selectedTrackId (Some 7) s_idle)
  = Throw (mkError NotFound "7 missing from trackMap") (set_selectedTrackId (Some 7) s_idle).
Proof.
  apply (handleUpdateGeoJSON_no_track (set_selectedTrackId (Some 7) s_idle) Editing 20 0 "drawn"
           None false).
  reflexivity.
Defined.


Lemma handleUpdateRectBounds_written_witness :
  TrackStore.lookup_track
    (camMap (final (handleUpdateRectBounds 25 0 [1; 2; 3; 4] s_idle))) 0 (selectedCamera s_idle)
  = Some (setFeature
            (mkFeatureInput 25 0 true (Some [1; 2; 3; 4])
               (match nts_mode (trackSettings s_idle) with
                | ModeDetection => false
                | ModeTrack =>
                    if creating s_idle then nts_interpolate (trackSettings s_idle)
                    else snd (canInterpolate track0 25)
                end))
            [] track0).
Proof.
  apply (handleUpdateRectBounds_written s_idle 0 track0 25 0 [1; 2; 3; 4]); reflexivity.
Defined.

Lemma handleTrackEdit_toggle_witness :
  exists s1 s2 : State,
    handleTrackEdit 1 s_selected = Ok tt s1
    /\ editingTrack s1 = negb (editingTrack s_selected)
    /\ selectedTrackId s1 = Some 1
    /\ handleTrackEdit 1 s1 = Ok tt s2
    /\ editingTrack s2 = editingTrack s_selected
    /\ selectedTrackId s2 = Some 1
    /\ store s2 = store s_selected.
Proof. apply (handleTrackEdit_toggle s_selected 1 track1); reflexivity. Defined.

End MoreScenarios.
